(** * md_to_gdoc: the markdown parser of [src/md_to_gdoc.py]

    A shallow embedding of [parse_markdown] and [_mention_spans] and the
    properties the specification states about them.

    Python strings are sequences of code points: [str] is [list N].
    The methods of [str] and the functions of [re] the parser calls are
    modelled with the behaviour CPython gives them, including the
    exceptions they can raise; the parser itself is the loop of the
    source, run over an explicit state [(out, in_footer)]. *)

From Stdlib Require Import String Ascii.
From Stdlib Require Import List NArith Arith Bool Lia.
Import ListNotations.

Set Implicit Arguments.

(** ** Python values *)

(** A code point, and a string: a sequence of code points. *)
Abbreviation codepoint := N (only parsing).
Abbreviation str := (list N) (only parsing).

(** A Rocq string literal read as a Python [str] (one code point per
    character; the literals of the parser are all ASCII). *)
Definition py (s : string) : str :=
  map N_of_ascii (list_ascii_of_string s).

(** Exceptions the operations used by the parser can raise. *)
Inductive exn : Type :=
| ValueError
| IndexError.

Inductive result (A : Type) : Type :=
| Ok (a : A)
| Raise (e : exn).
Arguments Ok {A} a.
Arguments Raise {A} e.

Definition bind {A B} (m : result A) (k : A -> result B) : result B :=
  match m with
  | Ok a => k a
  | Raise e => Raise e
  end.

Declare Scope py_scope.
Delimit Scope py_scope with py_scope.
Notation "x <- m ;; k" := (bind m (fun x => k))
  (at level 61, m at next level, right associativity) : py_scope.
Notation "' p <- m ;; k" := (bind m (fun x => match x with p => k end))
  (at level 61, p pattern, m at next level, right associativity) : py_scope.
Open Scope py_scope.

(** ** Characters *)

Definition LF : codepoint := 10%N.
Definition CR : codepoint := 13%N.

(** [str.isspace] on one code point, which is also what [\s] matches in a
    [str] pattern: CPython's [_PyUnicode_IsWhitespace]. *)
Definition is_space (c : codepoint) : bool :=
  ((9 <=? c) && (c <=? 13) || (28 <=? c) && (c <=? 32)
   || (c =? 133) || (c =? 160) || (c =? 5760)
   || (8192 <=? c) && (c <=? 8202)
   || (c =? 8232) || (c =? 8233) || (c =? 8239) || (c =? 8287)
   || (c =? 12288))%N.

(** [.] without DOTALL: anything but a line feed. *)
Definition is_dot (c : codepoint) : bool := negb (c =? LF)%N.

Definition ascii_alnum (c : codepoint) : bool :=
  ((48 <=? c) && (c <=? 57) || (65 <=? c) && (c <=? 90)
   || (97 <=? c) && (c <=? 122))%N.

(** ** Methods of [str] *)

Fixpoint str_eqb (a b : str) : bool :=
  match a, b with
  | [], [] => true
  | x :: a', y :: b' => (x =? y)%N && str_eqb a' b'
  | _, _ => false
  end.

Fixpoint startswith (s p : str) {struct p} : bool :=
  match p, s with
  | [], _ => true
  | x :: p', y :: s' => (x =? y)%N && startswith s' p'
  | _ :: _, [] => false
  end.

Fixpoint lstrip (s : str) : str :=
  match s with
  | [] => []
  | c :: t => if is_space c then lstrip t else s
  end.

Definition rstrip (s : str) : str := rev (lstrip (rev s)).

Definition strip (s : str) : str := lstrip (rstrip s).

(** [s.replace(old, new)] for a non-empty [old]: scan left to right; where
    [old] starts, emit [new] and skip the rest of [old] ([skip] counts the
    characters of the occurrence still to pass). *)
Fixpoint replace_from (old new s : str) (skip : nat) : str :=
  match s with
  | [] => []
  | c :: t =>
      match skip with
      | S k => replace_from old new t k
      | O =>
          if startswith s old
          then new ++ replace_from old new t (length old - 1)
          else c :: replace_from old new t 0
      end
  end.

Definition str_replace (s old new : str) : str :=
  match old with
  | [] => new ++ flat_map (fun c => c :: new) s
  | _ :: _ => replace_from old new s 0
  end.

(** [s.split(sep)]: the pieces between the occurrences of [sep], empty
    pieces kept; [cur] is the piece being read, reversed. *)
Fixpoint split_from (sep s cur : str) (skip : nat) : list str :=
  match s with
  | [] => [rev cur]
  | c :: t =>
      match skip with
      | S k => split_from sep t cur k
      | O =>
          if startswith s sep
          then rev cur :: split_from sep t [] (length sep - 1)
          else split_from sep t (c :: cur) 0
      end
  end.

Definition str_split (s sep : str) : result (list str) :=
  match sep with
  | [] => Raise ValueError
  | _ :: _ => Ok (split_from sep s [] 0)
  end.

(** [s.partition(sep)]: split at the first occurrence of [sep]. *)
Fixpoint partition_from (sep s before : str) : str * str * str :=
  match s with
  | [] => (rev before, [], [])
  | c :: t =>
      if startswith s sep
      then (rev before, sep, skipn (length sep) s)
      else partition_from sep t (c :: before)
  end.

Definition str_partition (s sep : str) : result (str * str * str) :=
  match sep with
  | [] => Raise ValueError
  | _ :: _ => Ok (partition_from sep s [])
  end.

(** ** Regular expressions

    [re] matches by backtracking.  A pattern is modelled as a function
    from the text at the current position to the list of ways it can
    match there, as pairs (value, text left), in the order the engine
    tries them; the first way for which the rest of the pattern also
    matches is the match that [re] reports. *)

Definition matcher (A : Type) : Type := str -> list (A * str).

Definition m_ret {A} (a : A) : matcher A := fun s => [(a, s)].

Definition m_bind {A B} (m : matcher A) (k : A -> matcher B) : matcher B :=
  fun s => flat_map (fun ar => k (fst ar) (snd ar)) (m s).

Notation "x <~ m ;; k" := (m_bind m (fun x => k))
  (at level 61, m at next level, right associativity) : py_scope.

(** A literal. *)
Definition lit (p : str) : matcher unit :=
  fun s => if startswith s p then [(tt, skipn (length p) s)] else [].

(** [c*] for a character class [c], greedy: the longest run first, then
    each shorter one down to the empty one. *)
Fixpoint star (cls : codepoint -> bool) (s : str) : list (str * str) :=
  match s with
  | [] => [([], [])]
  | c :: t =>
      if cls c
      then map (fun wr => (c :: fst wr, snd wr)) (star cls t) ++ [([], s)]
      else [([], s)]
  end.

(** [c+]: one character of the class, then [c*]. *)
Definition plus (cls : codepoint -> bool) : matcher str :=
  fun s =>
    match s with
    | [] => []
    | c :: t =>
        if cls c then map (fun wr => (c :: fst wr, snd wr)) (star cls t)
        else []
    end.

(** [$] without MULTILINE: at the end of the text, or just before a line
    feed that ends it. *)
Definition eol : matcher unit :=
  fun s =>
    match s with
    | [] => [(tt, s)]
    | [c] => if (c =? LF)%N then [(tt, s)] else []
    | _ :: _ :: _ => []
    end.

(** A match object: the groups, group 0 (the whole match) first. *)
Definition Match := list str.

(** [re.match(pattern, s)]: the pattern applied at the start of [s]
    (where [^] holds); [None] when it matches in no way. *)
Definition re_match (pattern : matcher (list str)) (s : str) : option Match :=
  match pattern s with
  | [] => None
  | (gs, rest) :: _ => Some (firstn (length s - length rest) s :: gs)
  end.

(** [m.group(n)] *)
Definition group (m : Match) (n : nat) : result str :=
  match nth_error m n with
  | Some g => Ok g
  | None => Raise IndexError
  end.

(** [pattern.finditer(s)] for a pattern that matches no empty text, as
    the (start, end) of each match: the search goes left to right and
    resumes where the last match ended. *)
Fixpoint finditer_from (pattern : matcher (list str)) (s : str)
    (pos skip : nat) : list (nat * nat) :=
  match s with
  | [] => []
  | _ :: t =>
      match skip with
      | S k => finditer_from pattern t (S pos) k
      | O =>
          match pattern s with
          | [] => finditer_from pattern t (S pos) 0
          | (_, rest) :: _ =>
              let n := length s - length rest in
              (pos, pos + n) :: finditer_from pattern t (S pos) (n - 1)
          end
      end
  end.

Definition finditer (pattern : matcher (list str)) (s : str) :
    list (nat * nat) :=
  finditer_from pattern s 0 0.

(** ** The parser *)

Record Paragraph : Type := mkParagraph {
  kind : string;
  text : str;
  level : nat;
  mentions : list (nat * nat)
}.

(** [Paragraph(kind=k, text=t)] with the dataclass defaults. *)
Definition Paragraph_default (k : string) (t : str) : Paragraph :=
  mkParagraph k t 0 [].

Section Parser.

(** [str.isalnum] of a code point outside ASCII, from the Unicode
    database of the interpreter. *)
Variable unicode_alnum : codepoint -> bool.

(** [\w] in a [str] pattern: alphanumeric or the underscore. *)
Definition is_word (c : codepoint) : bool :=
  if (c <? 128)%N then ascii_alnum c || (c =? 95)%N else unicode_alnum c.

(** [MENTION_RE]: an at sign, then [\w+]. *)
Definition MENTION_RE : matcher (list str) :=
  _ <~ lit (py "@") ;;
  _ <~ plus is_word ;;
  m_ret [].

(** The checkbox pattern, in the layout of re.VERBOSE:
    [^ ( \s* ) - \s* \[ [ ] \] \s+ ( .* ) $] *)
Definition CHECKBOX_RE : matcher (list str) :=
  g1 <~ star is_space ;;
  _ <~ lit (py "-") ;;
  _ <~ star is_space ;;
  _ <~ lit (py "[ ]") ;;
  _ <~ plus is_space ;;
  g2 <~ star is_dot ;;
  _ <~ eol ;;
  m_ret [g1; g2].

(** [[-*]] *)
Definition dash_or_star : matcher str :=
  fun s =>
    match s with
    | c :: t => if ((c =? 45) || (c =? 42))%N then [([c], t)] else []
    | [] => []
    end.

(** The bullet pattern, in the layout of re.VERBOSE:
    [^ ( \s* ) ( [-*] ) \s+ ( .* ) $] *)
Definition BULLET_RE : matcher (list str) :=
  g1 <~ star is_space ;;
  g2 <~ dash_or_star ;;
  _ <~ plus is_space ;;
  g3 <~ star is_dot ;;
  _ <~ eol ;;
  m_ret [g1; g2; g3].

Definition _mention_spans (s : str) : list (nat * nat) :=
  finditer MENTION_RE s.

(** The state of the loop of [parse_markdown]. *)
Definition state : Type := list Paragraph * bool.

Definition append (st : state) (p : Paragraph) : state :=
  (fst st ++ [p], snd st).

(** One iteration of [for raw in lines]. *)
Definition loop_body (raw : str) (st : state) : result state :=
  let in_footer := snd st in
  let line := rstrip raw in
  if str_eqb (strip line) [] then
    Ok (append st (Paragraph_default "text" []))
  else if str_eqb (strip line) (py "---") then
    Ok (fst st ++ [Paragraph_default "hr" []], true)
  else if startswith line (py "# ") then
    let title := strip (skipn 2 line) in
    ' (main, _, rest) <- str_partition title (py " - ") ;;
    let st := append st (Paragraph_default "h1" (strip main)) in
    if negb (str_eqb (strip rest) []) then
      Ok (append st (Paragraph_default "text" (strip rest)))
    else Ok st
  else if startswith line (py "## ") then
    Ok (append st (Paragraph_default "h2" (strip (skipn 3 line))))
  else if startswith line (py "### ") then
    Ok (append st (Paragraph_default "h3" (strip (skipn 4 line))))
  else
    match re_match CHECKBOX_RE line with
    | Some m_cb =>
        g1 <- group m_cb 1 ;;
        g2 <- group m_cb 2 ;;
        let level := length g1 / 2 in
        let txt := strip g2 in
        Ok (append st (mkParagraph "checkbox" txt level (_mention_spans txt)))
    | None =>
        match re_match BULLET_RE line with
        | Some m_b =>
            g1 <- group m_b 1 ;;
            g3 <- group m_b 3 ;;
            let level := length g1 / 2 in
            let txt := strip g3 in
            let kind := if in_footer then "footer"%string else "bullet"%string in
            Ok (append st (mkParagraph kind txt level (_mention_spans txt)))
        | None =>
            let txt := strip line in
            Ok (append st
                  (mkParagraph (if in_footer then "footer" else "text")%string
                     txt 0 (_mention_spans txt)))
        end
    end.

Fixpoint for_lines (lines : list str) (st : state) : result state :=
  match lines with
  | [] => Ok st
  | raw :: rest => st' <- loop_body raw st ;; for_lines rest st'
  end.

(** The lines of [md]: CR LF replaced by LF, then CR replaced by LF, then
    split at LF. *)
Definition split_lines (md : str) : result (list str) :=
  str_split (str_replace (str_replace md [CR; LF] [LF]) [CR] [LF]) [LF].

Definition parse_markdown (md : str) : result (list Paragraph) :=
  lines <- split_lines md ;;
  st <- for_lines lines ([], false) ;;
  Ok (fst st).


(** ** Vocabulary of the specification *)

(** The eight kinds of a record. *)
Definition kinds : list string :=
  ["text"; "h1"; "h2"; "h3"; "bullet"; "checkbox"; "footer"; "hr"]%string.

(** The classes of a line, as the classifier sees it: with the trailing
    whitespace removed. *)
Definition is_blank_line (raw : str) : bool :=
  str_eqb (strip (rstrip raw)) [].

Definition is_hr_line (raw : str) : bool :=
  str_eqb (strip (rstrip raw)) (py "---").

Definition is_h1_line (raw : str) : bool := startswith (rstrip raw) (py "# ").
Definition is_h2_line (raw : str) : bool := startswith (rstrip raw) (py "## ").
Definition is_h3_line (raw : str) : bool := startswith (rstrip raw) (py "### ").

Definition is_heading_line (raw : str) : bool :=
  is_h1_line raw || is_h2_line raw || is_h3_line raw.

Definition is_checkbox_line (raw : str) : bool :=
  match re_match CHECKBOX_RE (rstrip raw) with
  | Some _ => true
  | None => false
  end.

Definition is_bullet_line (raw : str) : bool :=
  match re_match BULLET_RE (rstrip raw) with
  | Some _ => true
  | None => false
  end.

(** [sep in s] *)
Fixpoint str_contains (s sep : str) : bool :=
  startswith s sep ||
  match s with
  | [] => false
  | _ :: t => str_contains t sep
  end.

(** The content of a heading line: the prefix removed, trimmed. *)
Definition h1_content (raw : str) : str := strip (skipn 2 (rstrip raw)).

(** What is left of an input line that starts with a hash and a space
    after the split at the first separator, trimmed. *)
Definition h1_remainder (raw : str) : str :=
  strip (snd (partition_from (py " - ") (strip (skipn 2 raw)) [])).

Definition h1_has_remainder (raw : str) : bool :=
  startswith raw (py "# ") && negb (str_eqb (h1_remainder raw) []).

(** The state of the loop when it reaches the line at position [j]. *)
Definition state_at (lines : list str) (j : nat) : result state :=
  for_lines (firstn j lines) ([], false).

(** The footer flag when the loop reaches the line at position [j]. *)
Definition in_footer_at (lines : list str) (j : nat) : result bool :=
  st <- state_at lines j ;; Ok (snd st).

(** The records the iteration for the line at position [j] appends. *)
Definition records_at (lines : list str) (j : nat) : result (list Paragraph) :=
  st <- state_at lines j ;;
  match nth_error lines j with
  | None => Ok []
  | Some raw =>
      st' <- loop_body raw st ;;
      Ok (skipn (length (fst st)) (fst st'))
  end.

(** The length of the longest run of the class at the start of [s]. *)
Fixpoint run (cls : codepoint -> bool) (s : str) : nat :=
  match s with
  | [] => 0
  | c :: t => if cls c then S (run cls t) else 0
  end.

(** [s[a:b]] is a maximal mention token: an at sign, then one or more
    word characters, and no word character follows. *)
Definition token_at (s : str) (a b : nat) : Prop :=
  b <= length s /\
  (exists w, w <> [] /\ forallb is_word w = true /\
             firstn (b - a) (skipn a s) = 64%N :: w) /\
  (forall c, nth_error s b = Some c -> is_word c = false).

(** Spans from left to right without overlap, none starting before [lo]. *)
Fixpoint ordered_from (lo : nat) (l : list (nat * nat)) : Prop :=
  match l with
  | [] => True
  | (a, b) :: l' => lo <= a /\ a < b /\ ordered_from b l'
  end.

(** [l] is the sequence of the maximal mention tokens of [s]. *)
Definition mention_seq (s : str) (l : list (nat * nat)) : Prop :=
  ordered_from 0 l /\ forall a b, In (a, b) l <-> token_at s a b.

(** What the mentions of a record of a line are: none for a heading or
    a rule and for the subtitle of an h1 line ([h1] tells whether the
    line is an h1 line), the tokens of the text otherwise; and every
    span is a range of the text. *)
Definition mentions_ok (h1 : bool) (r : Paragraph) : Prop :=
  (In (kind r) ["h1"; "h2"; "h3"; "hr"]%string -> mentions r = []) /\
  (In (kind r) ["checkbox"; "bullet"; "footer"]%string ->
     mentions r = _mention_spans (text r) /\
     mention_seq (text r) (mentions r)) /\
  (kind r = "text"%string ->
     if h1 then mentions r = [] else mention_seq (text r) (mentions r)) /\
  (forall a b, In (a, b) (mentions r) -> a < b /\ b <= length (text r)).

(** What one iteration does, by the branch taken: [emits f raw recs f']
    when the line [raw], read with footer flag [f], appends [recs] and
    leaves the flag [f']. *)
Inductive emits (f : bool) (raw : str) : list Paragraph -> bool -> Prop :=
| emits_blank :
    is_blank_line raw = true ->
    emits f raw [Paragraph_default "text" []] f
| emits_hr :
    is_blank_line raw = false -> is_hr_line raw = true ->
    emits f raw [Paragraph_default "hr" []] true
| emits_h1 main sep rest :
    is_blank_line raw = false -> is_hr_line raw = false ->
    is_h1_line raw = true ->
    partition_from (py " - ") (h1_content raw) [] = (main, sep, rest) ->
    strip rest = [] ->
    emits f raw [Paragraph_default "h1" (strip main)] f
| emits_h1_subtitle main sep rest :
    is_blank_line raw = false -> is_hr_line raw = false ->
    is_h1_line raw = true ->
    partition_from (py " - ") (h1_content raw) [] = (main, sep, rest) ->
    strip rest <> [] ->
    emits f raw [Paragraph_default "h1" (strip main);
                 Paragraph_default "text" (strip rest)] f
| emits_h2 :
    is_blank_line raw = false -> is_hr_line raw = false ->
    is_h1_line raw = false -> is_h2_line raw = true ->
    emits f raw [Paragraph_default "h2" (strip (skipn 3 (rstrip raw)))] f
| emits_h3 :
    is_blank_line raw = false -> is_hr_line raw = false ->
    is_h1_line raw = false -> is_h2_line raw = false ->
    is_h3_line raw = true ->
    emits f raw [Paragraph_default "h3" (strip (skipn 4 (rstrip raw)))] f
| emits_checkbox g0 g1 g2 :
    is_blank_line raw = false -> is_hr_line raw = false ->
    is_heading_line raw = false ->
    re_match CHECKBOX_RE (rstrip raw) = Some [g0; g1; g2] ->
    emits f raw [mkParagraph "checkbox" (strip g2) (length g1 / 2)
                   (_mention_spans (strip g2))] f
| emits_bullet g0 g1 g2 g3 :
    is_blank_line raw = false -> is_hr_line raw = false ->
    is_heading_line raw = false ->
    re_match CHECKBOX_RE (rstrip raw) = None ->
    re_match BULLET_RE (rstrip raw) = Some [g0; g1; g2; g3] ->
    emits f raw [mkParagraph (if f then "footer" else "bullet")
                   (strip g3) (length g1 / 2)
                   (_mention_spans (strip g3))] f
| emits_plain :
    is_blank_line raw = false -> is_hr_line raw = false ->
    is_heading_line raw = false ->
    re_match CHECKBOX_RE (rstrip raw) = None ->
    re_match BULLET_RE (rstrip raw) = None ->
    emits f raw [mkParagraph (if f then "footer" else "text")
                   (strip (rstrip raw)) 0
                   (_mention_spans (strip (rstrip raw)))] f.

(** A run of the loop over [lines] from footer flag [f]: what each line
    appends, and the flag at the end. *)
Inductive runs : bool -> list str -> list (list Paragraph) -> bool -> Prop :=
| runs_nil f : runs f [] [] f
| runs_cons f raw recs f1 rest rs f' :
    emits f raw recs f1 -> runs f1 rest rs f' ->
    runs f (raw :: rest) (recs :: rs) f'.

(** A text given by its lines, joined with line feeds. *)
Fixpoint text_of_lines (ls : list string) : str :=
  match ls with
  | [] => []
  | [l] => py l
  | l :: ls' => py l ++ LF :: text_of_lines ls'
  end.

(** [sep.join(lines)] *)
Fixpoint join (sep : str) (lines : list str) : str :=
  match lines with
  | [] => []
  | [l] => l
  | l :: ls => l ++ sep ++ join sep ls
  end.

(** ** The requests of [create_formatted_doc]

    Between getting the document and sending the batch,
    [create_formatted_doc] computes the list of requests of the batch
    from the paragraphs alone.  A request is one of the dicts of the
    source; a constructor stands for the dict of that shape and carries
    the fields that vary (the text styles of a mention and of a footer,
    the units and the field masks are constants of the source). *)
Inductive request : Type :=
| insertText (index : nat) (text : str)
| insertHorizontalRule (index : nat)
| namedStyle (startIndex endIndex : nat) (namedStyleType : string)
| indentStart (startIndex endIndex : nat) (magnitude : nat)
| createParagraphBullets (startIndex endIndex : nat) (bulletPreset : string)
| mentionStyle (startIndex endIndex : nat)
| footerStyle (startIndex endIndex : nat).

(** An entry of [para_ranges]. *)
Record para_range : Type := mkRange {
  pr_kind : string;
  pr_level : nat;
  pr_start : nat;
  pr_end : nat
}.

(** The variables the first loop of [create_formatted_doc] updates. *)
Record layout : Type := mkLayout {
  idx : nat;
  requests : list request;
  para_ranges : list para_range;
  mention_ranges : list (nat * nat);
  footer_ranges : list (nat * nat)
}.

(** [add_text(text)]: the range it returns and the state it leaves. *)
Definition add_text (text : str) (st : layout) : (nat * nat) * layout :=
  let start := idx st in
  let end_ := idx st + length text + 1 in
  ((start, end_),
   mkLayout end_
     (requests st ++ [insertText (idx st) (text ++ [LF])])
     (para_ranges st) (mention_ranges st) (footer_ranges st)).

(** One iteration of [for p in paragraphs]. *)
Definition layout_step (st : layout) (p : Paragraph) : layout :=
  if String.eqb (kind p) "hr" then
    let st1 := snd (add_text [] st) in
    let st2 :=
      mkLayout (idx st1 + 1)
        (requests st1 ++ [insertHorizontalRule (idx st1)])
        (para_ranges st1) (mention_ranges st1) (footer_ranges st1) in
    snd (add_text [] st2)
  else
    let r := add_text (text p) st in
    let start := fst (fst r) in
    let end_ := snd (fst r) in
    let st1 := snd r in
    mkLayout (idx st1) (requests st1)
      (para_ranges st1 ++ [mkRange (kind p) (level p) start end_])
      (mention_ranges st1
       ++ map (fun m => (start + fst m, start + snd m)) (mentions p))
      (if String.eqb (kind p) "footer"
       then footer_ranges st1 ++ [(start, end_ - 1)]
       else footer_ranges st1).

(** The state after the first loop, which starts at index 1 with empty
    lists. *)
Definition layout_paragraphs (paragraphs : list Paragraph) : layout :=
  fold_left layout_step paragraphs (mkLayout 1 [] [] [] []).

(** [paragraph_named_style] and [set_indent]: the request each appends to
    [style_reqs]. *)
Definition paragraph_named_style (start end_ : nat) (style : string) : request :=
  namedStyle start end_ style.

Definition set_indent (start end_ level : nat) : request :=
  indentStart start end_ (36 * level).

(** The body of the loop over [para_ranges] for the headings. *)
Definition heading_requests (pr : para_range) : list request :=
  if String.eqb (pr_kind pr) "h1" then
    [paragraph_named_style (pr_start pr) (pr_end pr) "HEADING_1"]
  else if String.eqb (pr_kind pr) "h2" then
    [paragraph_named_style (pr_start pr) (pr_end pr) "HEADING_2"]
  else if String.eqb (pr_kind pr) "h3" then
    [paragraph_named_style (pr_start pr) (pr_end pr) "HEADING_3"]
  else [].

(** The body of the loop over [para_ranges] for the list items. *)
Definition list_requests (pr : para_range) : list request :=
  if String.eqb (pr_kind pr) "bullet" then
    [set_indent (pr_start pr) (pr_end pr) (pr_level pr);
     createParagraphBullets (pr_start pr) (pr_end pr)
       "BULLET_DISC_CIRCLE_SQUARE"]
  else if String.eqb (pr_kind pr) "checkbox" then
    [set_indent (pr_start pr) (pr_end pr) (pr_level pr);
     createParagraphBullets (pr_start pr) (pr_end pr) "BULLET_CHECKBOX"]
  else [].

(** [style_reqs] after the four loops that fill it. *)
Definition style_reqs (st : layout) : list request :=
  flat_map heading_requests (para_ranges st)
  ++ flat_map list_requests (para_ranges st)
  ++ map (fun m => mentionStyle (fst m) (snd m)) (mention_ranges st)
  ++ map (fun m => footerStyle (fst m) (snd m)) (footer_ranges st).

(** [requests + style_reqs], the requests of the batch. *)
Definition batch_requests (paragraphs : list Paragraph) : list request :=
  let st := layout_paragraphs paragraphs in
  requests st ++ style_reqs st.

(** What an insert request adds to the body, and where. *)
Definition inserted (r : request) : nat :=
  match r with
  | insertText _ t => length t
  | insertHorizontalRule _ => 1
  | _ => 0
  end.

Definition insert_index (r : request) : option nat :=
  match r with
  | insertText i _ => Some i
  | insertHorizontalRule i => Some i
  | _ => None
  end.

(** Each request inserts at [at_], where the ones before it ended. *)
Fixpoint sequential (at_ : nat) (reqs : list request) : Prop :=
  match reqs with
  | [] => True
  | r :: rs => insert_index r = Some at_ /\ sequential (at_ + inserted r) rs
  end.

(** The range a style request applies to. *)
Definition style_range (r : request) : option (nat * nat) :=
  match r with
  | namedStyle s e _ => Some (s, e)
  | indentStart s e _ => Some (s, e)
  | createParagraphBullets s e _ => Some (s, e)
  | mentionStyle s e => Some (s, e)
  | footerStyle s e => Some (s, e)
  | _ => None
  end.

Definition not_hr (p : Paragraph) : bool := negb (String.eqb (kind p) "hr").

(** The entry of [para_ranges] of a paragraph: its kind and level, and
    a range as long as its text and the line feed after it. *)
Definition range_of (pr : para_range) (p : Paragraph) : Prop :=
  pr_kind pr = kind p /\ pr_level pr = level p /\
  pr_end pr = pr_start pr + length (text p) + 1.

(** ** Facts about the string methods *)

Lemma str_eqb_eq (a b : str) : str_eqb a b = true <-> a = b.
Proof.
  revert b; induction a as [|x a IH]; intros [|y b]; simpl;
    try (split; [discriminate|discriminate]); try tauto.
  rewrite andb_true_iff, N.eqb_eq, IH.
  split; [intros [-> ->]; reflexivity | intros H; injection H; auto].
Qed.

Lemma str_eqb_neq (a b : str) : str_eqb a b = false <-> a <> b.
Proof.
  rewrite <- (str_eqb_eq a b). destruct (str_eqb a b); split; congruence.
Qed.

Lemma startswith_app (s p : str) :
  startswith s p = true <-> exists t, s = p ++ t.
Proof.
  revert s; induction p as [|x p IH]; intros s; simpl.
  - split; [exists s; reflexivity | reflexivity].
  - destruct s as [|y s].
    + split; [discriminate | intros [t H]; discriminate].
    + rewrite andb_true_iff, N.eqb_eq, IH. split.
      * intros [-> [t ->]]. exists t; reflexivity.
      * intros [t H]. injection H as -> ->. split; [reflexivity | exists t; reflexivity].
Qed.

Lemma lstrip_nil (s : str) : lstrip s = [] <-> forallb is_space s = true.
Proof.
  induction s as [|c s IH]; simpl; [tauto|].
  destruct (is_space c); simpl; [exact IH | split; discriminate].
Qed.

Lemma lstrip_app (a b : str) :
  lstrip (a ++ b) = if forallb is_space a then lstrip b else lstrip a ++ b.
Proof.
  induction a as [|c a IH]; simpl; [reflexivity|].
  destruct (is_space c); simpl; [exact IH | reflexivity].
Qed.

Lemma forallb_rev (p : codepoint -> bool) (s : str) :
  forallb p (rev s) = forallb p s.
Proof.
  induction s as [|c s IH]; simpl; [reflexivity|].
  rewrite forallb_app, IH; simpl. rewrite andb_true_r. apply andb_comm.
Qed.

Lemma rstrip_nil (s : str) : rstrip s = [] <-> forallb is_space s = true.
Proof.
  unfold rstrip. rewrite <- (forallb_rev is_space s), <- lstrip_nil.
  split; intros H.
  - apply (f_equal (@rev _)) in H. rewrite rev_involutive in H. exact H.
  - rewrite H; reflexivity.
Qed.

(** [rstrip] read from the left. *)
Lemma rstrip_cons (c : codepoint) (s : str) :
  rstrip (c :: s) =
  match rstrip s with
  | [] => if is_space c then [] else [c]
  | _ :: _ => c :: rstrip s
  end.
Proof.
  unfold rstrip at 1; simpl. rewrite lstrip_app.
  destruct (forallb is_space (rev s)) eqn:E.
  - apply lstrip_nil in E. unfold rstrip. rewrite E; simpl.
    destruct (is_space c); reflexivity.
  - rewrite rev_app_distr; simpl. fold (rstrip s).
    destruct (rstrip s) eqn:R; [|reflexivity].
    apply rstrip_nil in R. rewrite forallb_rev in E. congruence.
Qed.

(** ** Facts about the patterns *)

Lemma in_m_bind A B (m : matcher A) (k : A -> matcher B) s b r :
  In (b, r) (m_bind m k s) <->
  exists a r', In (a, r') (m s) /\ In (b, r) (k a r').
Proof.
  unfold m_bind. rewrite in_flat_map. split.
  - intros [[a r'] [H1 H2]]. exists a, r'. auto.
  - intros [a [r' [H1 H2]]]. exists (a, r'). auto.
Qed.

Lemma in_m_ret A (a b : A) (s r : str) :
  In (b, r) (m_ret a s) <-> b = a /\ r = s.
Proof.
  unfold m_ret; simpl. split.
  - intros [H|[]]. injection H; auto.
  - intros [-> ->]; auto.
Qed.

Lemma in_lit p s u r : In (u, r) (lit p s) -> s = p ++ r.
Proof.
  unfold lit. destruct (startswith s p) eqn:E; [|intros []].
  apply startswith_app in E. destruct E as [t ->].
  intros [H|[]]. injection H as _ <-.
  rewrite skipn_app, skipn_all, Nat.sub_diag. reflexivity.
Qed.

Lemma in_star cls s w r :
  In (w, r) (star cls s) -> s = w ++ r /\ forallb cls w = true.
Proof.
  revert w r; induction s as [|c t IH]; intros w r; simpl.
  - intros [H|[]]. injection H as <- <-. auto.
  - destruct (cls c) eqn:E.
    + rewrite in_app_iff, in_map_iff. intros [[[w' r'] [H1 H2]]|[H|[]]].
      * injection H1 as <- <-. simpl in *. destruct (IH _ _ H2) as [-> Hw].
        rewrite E. auto.
      * injection H as <- <-. auto.
    + intros [H|[]]. injection H as <- <-. auto.
Qed.

Lemma in_plus cls s w r :
  In (w, r) (plus cls s) -> s = w ++ r /\ forallb cls w = true /\ w <> [].
Proof.
  unfold plus. destruct s as [|c t]; [intros []|].
  destruct (cls c) eqn:E; [|intros []].
  rewrite in_map_iff. intros [[w' r'] [H1 H2]].
  injection H1 as <- <-. simpl in *. destruct (in_star _ _ _ _ H2) as [-> Hw].
  rewrite E. repeat split; auto. discriminate.
Qed.

Lemma in_eol s u r : In (u, r) (eol s) -> r = s /\ (s = [] \/ s = [LF]).
Proof.
  unfold eol. destruct s as [|c [|d t]]; simpl.
  - intros [H|[]]. injection H as _ <-. auto.
  - destruct (c =? LF)%N eqn:E; [|intros []].
    apply N.eqb_eq in E. subst c. intros [H|[]]. injection H as _ <-. auto.
  - intros [].
Qed.

Lemma in_dash_or_star s g r :
  In (g, r) (dash_or_star s) ->
  exists c, g = [c] /\ s = c :: r /\ (c = 45%N \/ c = 42%N).
Proof.
  unfold dash_or_star. destruct s as [|c t]; [intros []|].
  destruct ((c =? 45)%N || (c =? 42)%N) eqn:E; [|intros []].
  intros [H|[]]. injection H as <- <-. exists c. repeat split.
  apply orb_true_iff in E. rewrite !N.eqb_eq in E. exact E.
Qed.

(** The shape of a line the checkbox pattern matches. *)
Lemma in_CHECKBOX_RE s gs r :
  In (gs, r) (CHECKBOX_RE s) ->
  exists g1 w2 w3 g2,
    gs = [g1; g2] /\
    s = g1 ++ py "-" ++ w2 ++ py "[ ]" ++ w3 ++ g2 ++ r /\
    forallb is_space g1 = true /\ forallb is_space w2 = true /\
    forallb is_space w3 = true /\ w3 <> [] /\
    forallb is_dot g2 = true /\ (r = [] \/ r = [LF]).
Proof.
  unfold CHECKBOX_RE. intros H.
  apply in_m_bind in H. destruct H as [g1 [r1 [H1 H]]].
  apply in_m_bind in H. destruct H as [u2 [r2 [H2 H]]].
  apply in_m_bind in H. destruct H as [w2 [r3 [H3 H]]].
  apply in_m_bind in H. destruct H as [u4 [r4 [H4 H]]].
  apply in_m_bind in H. destruct H as [w3 [r5 [H5 H]]].
  apply in_m_bind in H. destruct H as [g2 [r6 [H6 H]]].
  apply in_m_bind in H. destruct H as [u7 [r7 [H7 H]]].
  apply in_m_ret in H. destruct H as [-> ->].
  apply in_star in H1. destruct H1 as [-> Hg1].
  apply in_lit in H2. subst r1.
  apply in_star in H3. destruct H3 as [-> Hw2].
  apply in_lit in H4. subst r3.
  apply in_plus in H5. destruct H5 as [-> [Hw3 Hne]].
  apply in_star in H6. destruct H6 as [-> Hg2].
  apply in_eol in H7. destruct H7 as [-> Hr].
  exists g1, w2, w3, g2. repeat split; auto.
Qed.

(** The shape of a line the bullet pattern matches. *)
Lemma in_BULLET_RE s gs r :
  In (gs, r) (BULLET_RE s) ->
  exists g1 c w g3,
    gs = [g1; [c]; g3] /\
    s = g1 ++ c :: w ++ g3 ++ r /\
    forallb is_space g1 = true /\ (c = 45%N \/ c = 42%N) /\
    forallb is_space w = true /\ w <> [] /\
    forallb is_dot g3 = true /\ (r = [] \/ r = [LF]).
Proof.
  unfold BULLET_RE. intros H.
  apply in_m_bind in H. destruct H as [g1 [r1 [H1 H]]].
  apply in_m_bind in H. destruct H as [g2 [r2 [H2 H]]].
  apply in_m_bind in H. destruct H as [w [r3 [H3 H]]].
  apply in_m_bind in H. destruct H as [g3 [r4 [H4 H]]].
  apply in_m_bind in H. destruct H as [u5 [r5 [H5 H]]].
  apply in_m_ret in H. destruct H as [-> ->].
  apply in_star in H1. destruct H1 as [-> Hg1].
  apply in_dash_or_star in H2. destruct H2 as [c [-> [-> Hc]]].
  apply in_plus in H3. destruct H3 as [-> [Hw Hne]].
  apply in_star in H4. destruct H4 as [-> Hg3].
  apply in_eol in H5. destruct H5 as [-> Hr].
  exists g1, c, w, g3. repeat split; auto.
Qed.

Lemma re_match_in pattern s m :
  re_match pattern s = Some m ->
  exists g0 gs r, m = g0 :: gs /\ In (gs, r) (pattern s).
Proof.
  unfold re_match. destruct (pattern s) as [|[gs r] l] eqn:E; [discriminate|].
  intros H. injection H as <-. eexists _, gs, r. split; [reflexivity|].
  left; reflexivity.
Qed.

Lemma re_match_CHECKBOX_groups s m :
  re_match CHECKBOX_RE s = Some m -> exists g0 g1 g2, m = [g0; g1; g2].
Proof.
  intros H. apply re_match_in in H. destruct H as [g0 [gs [r [-> H]]]].
  apply in_CHECKBOX_RE in H. destruct H as [g1 [w2 [w3 [g2 [-> _]]]]].
  exists g0, g1, g2. reflexivity.
Qed.

Lemma re_match_BULLET_groups s m :
  re_match BULLET_RE s = Some m -> exists g0 g1 g2 g3, m = [g0; g1; g2; g3].
Proof.
  intros H. apply re_match_in in H. destruct H as [g0 [gs [r [-> H]]]].
  apply in_BULLET_RE in H. destruct H as [g1 [c [w [g3 [-> _]]]]].
  exists g0, g1, [c], g3. reflexivity.
Qed.

(** ** One iteration of the loop *)

Lemma str_partition_dash (s : str) :
  str_partition s (py " - ") = Ok (partition_from (py " - ") s []).
Proof. reflexivity. Qed.

(** Every iteration takes one of the branches of [emits], and none
    raises. *)
Lemma loop_body_emits raw st :
  exists recs f',
    emits (snd st) raw recs f' /\ loop_body raw st = Ok (fst st ++ recs, f').
Proof.
  destruct st as [out f]. unfold loop_body, append. cbn [fst snd].
  destruct (str_eqb (strip (rstrip raw)) []) eqn:Eb.
  { eexists _, f. split; [apply emits_blank; exact Eb | reflexivity]. }
  destruct (str_eqb (strip (rstrip raw)) (py "---")) eqn:Eh.
  { eexists _, true. split; [apply emits_hr; assumption | reflexivity]. }
  destruct (startswith (rstrip raw) (py "# ")) eqn:E1.
  { rewrite str_partition_dash. cbn [bind].
    destruct (partition_from (py " - ") (strip (skipn 2 (rstrip raw))) [])
      as [[main sep] rest] eqn:P.
    destruct (str_eqb (strip rest) []) eqn:R; cbn [negb fst snd].
    - eexists _, f. split; [|reflexivity].
      apply (emits_h1 f raw Eb Eh E1 P). apply str_eqb_eq; exact R.
    - eexists _, f. split; [|rewrite <- app_assoc; reflexivity].
      apply (emits_h1_subtitle f raw Eb Eh E1 P). apply str_eqb_neq; exact R. }
  destruct (startswith (rstrip raw) (py "## ")) eqn:E2.
  { eexists _, f. split; [apply emits_h2; assumption | reflexivity]. }
  destruct (startswith (rstrip raw) (py "### ")) eqn:E3.
  { eexists _, f. split; [apply emits_h3; assumption | reflexivity]. }
  assert (Hh : is_heading_line raw = false).
  { unfold is_heading_line, is_h1_line, is_h2_line, is_h3_line.
    rewrite E1, E2, E3. reflexivity. }
  destruct (re_match CHECKBOX_RE (rstrip raw)) as [m|] eqn:Ec.
  { destruct (re_match_CHECKBOX_groups _ Ec) as [g0 [g1 [g2 ->]]].
    eexists _, f. split; [|reflexivity].
    apply (emits_checkbox f raw Eb Eh Hh Ec). }
  destruct (re_match BULLET_RE (rstrip raw)) as [m|] eqn:Ebu.
  { destruct (re_match_BULLET_groups _ Ebu) as [g0 [g1 [g2 [g3 ->]]]].
    eexists _, f. split; [|reflexivity].
    apply (emits_bullet f raw Eb Eh Hh Ec Ebu). }
  eexists _, f. split; [|reflexivity].
  apply (emits_plain f raw Eb Eh Hh Ec Ebu).
Qed.

(** The loop state is a function of the line: two branches never both
    apply. *)
Lemma emits_functional f raw recs1 f1 recs2 f2 :
  emits f raw recs1 f1 -> emits f raw recs2 f2 -> recs1 = recs2 /\ f1 = f2.
Proof.
  intros H1 H2.
  destruct (loop_body_emits raw ([], f)) as [recs [f' [H L]]].
  cbn [fst snd] in *.
  assert (G : forall r g, emits f raw r g -> r = recs /\ g = f').
  { clear - L. intros r g H. revert L. unfold loop_body, append.
    cbn [fst snd].
    destruct H as [Hb|Hb Hh|main sep rest Hb Hh H1 P R|main sep rest Hb Hh H1 P R
                  |Hb Hh H1 H2|Hb Hh H1 H2 H3|g0 g1 g2 Hb Hh Hd Hc
                  |g0 g1 g2 g3 Hb Hh Hd Hc Hbu|Hb Hh Hd Hc Hbu];
      unfold is_blank_line, is_hr_line, is_heading_line, is_h1_line,
        is_h2_line, is_h3_line in *;
      rewrite ?Hb, ?Hh.
    - intros L; injection L as <- <-; auto.
    - intros L; injection L as <- <-; auto.
    - rewrite H1, str_partition_dash. cbn [bind]. unfold h1_content in P.
      rewrite P, R. cbn. intros L; injection L as <- <-; auto.
    - rewrite H1, str_partition_dash. cbn [bind]. unfold h1_content in P.
      rewrite P. apply str_eqb_neq in R. rewrite R. cbn.
      intros L; injection L as <- <-; auto.
    - rewrite H1, H2. intros L; injection L as <- <-; auto.
    - rewrite H1, H2, H3. intros L; injection L as <- <-; auto.
    - apply orb_false_iff in Hd. destruct Hd as [Hd H3].
      apply orb_false_iff in Hd. destruct Hd as [H1 H2].
      rewrite H1, H2, H3, Hc. cbn. intros L; injection L as <- <-; auto.
    - apply orb_false_iff in Hd. destruct Hd as [Hd H3].
      apply orb_false_iff in Hd. destruct Hd as [H1 H2].
      rewrite H1, H2, H3, Hc, Hbu. cbn. intros L; injection L as <- <-; auto.
    - apply orb_false_iff in Hd. destruct Hd as [Hd H3].
      apply orb_false_iff in Hd. destruct Hd as [H1 H2].
      rewrite H1, H2, H3, Hc, Hbu. cbn. intros L; injection L as <- <-; auto. }
  destruct (G _ _ H1) as [-> ->]. destruct (G _ _ H2) as [-> ->]. auto.
Qed.

Lemma loop_body_of_emits f raw recs f' out :
  emits f raw recs f' -> loop_body raw (out, f) = Ok (out ++ recs, f').
Proof.
  intros H. destruct (loop_body_emits raw (out, f)) as [r [g [H' L]]].
  cbn [fst snd] in *. destruct (emits_functional H H') as [-> ->]. exact L.
Qed.

(** ** More facts about trimming *)

Lemma lstrip_idem (s : str) : lstrip (lstrip s) = lstrip s.
Proof.
  induction s as [|c s IH]; simpl; [reflexivity|].
  destruct (is_space c) eqn:E; [exact IH | simpl; rewrite E; reflexivity].
Qed.

Lemma rstrip_idem (s : str) : rstrip (rstrip s) = rstrip s.
Proof.
  unfold rstrip. rewrite rev_involutive, lstrip_idem. reflexivity.
Qed.

Lemma strip_rstrip (s : str) : strip (rstrip s) = strip s.
Proof. unfold strip. rewrite rstrip_idem. reflexivity. Qed.

Lemma lstrip_cons_nonspace c s : is_space c = false -> lstrip (c :: s) = c :: s.
Proof. intros E; simpl; rewrite E; reflexivity. Qed.

(** A line that starts with a character that is not whitespace keeps it
    when trimmed. *)
Lemma rstrip_cons_nonspace c s :
  is_space c = false -> exists u, rstrip (c :: s) = c :: u.
Proof.
  intros E. rewrite rstrip_cons, E. destruct (rstrip s); eauto.
Qed.

Lemma strip_cons_nonspace c s :
  is_space c = false -> exists u, strip (c :: s) = c :: u.
Proof.
  intros E. unfold strip. destruct (rstrip_cons_nonspace c s E) as [u ->].
  exists u. apply lstrip_cons_nonspace; exact E.
Qed.

Lemma rstrip_lstrip (s : str) : rstrip (lstrip s) = lstrip (rstrip s).
Proof.
  induction s as [|c s IH]; [reflexivity|].
  destruct (is_space c) eqn:E.
  - simpl lstrip at 1. rewrite E, IH, rstrip_cons, E.
    destruct (rstrip s) eqn:R; [reflexivity|].
    simpl. rewrite E. reflexivity.
  - rewrite (lstrip_cons_nonspace c s E).
    destruct (rstrip_cons_nonspace c s E) as [u Hu]. rewrite Hu.
    symmetry; apply lstrip_cons_nonspace; exact E.
Qed.

(** The trimmed text has no trailing whitespace. *)
Lemma rstrip_strip (s : str) : rstrip (strip s) = strip s.
Proof.
  unfold strip. rewrite rstrip_lstrip, rstrip_idem. reflexivity.
Qed.

Lemma rstrip_decomp (s : str) :
  exists w, s = rstrip s ++ w /\ forallb is_space w = true.
Proof.
  induction s as [|c s [w [Hs Hw]]]; [exists []; auto|].
  rewrite rstrip_cons. destruct (rstrip s) eqn:R.
  - simpl in Hs. subst w. destruct (is_space c) eqn:E.
    + exists (c :: s). simpl. rewrite E. auto.
    + exists s. auto.
  - exists w. split; [simpl; f_equal; exact Hs | exact Hw].
Qed.

Lemma lstrip_decomp (s : str) :
  exists w, s = w ++ lstrip s /\ forallb is_space w = true.
Proof.
  induction s as [|c s [w [Hs Hw]]]; [exists []; auto|].
  simpl. destruct (is_space c) eqn:E.
  - exists (c :: w). simpl. rewrite E. split; [congruence | exact Hw].
  - exists []. auto.
Qed.

Lemma forallb_In (p : codepoint -> bool) s c :
  forallb p s = true -> In c s -> p c = true.
Proof. intros H. rewrite forallb_forall in H. apply H. Qed.

(** A character that is not whitespace survives trimming. *)
Lemma In_strip c s : is_space c = false -> In c s -> In c (strip s).
Proof.
  intros E H. unfold strip.
  destruct (rstrip_decomp s) as [w [Hs Hw]].
  destruct (lstrip_decomp (rstrip s)) as [v [Hr Hv]].
  rewrite Hs, in_app_iff in H. destruct H as [H|H].
  - rewrite Hr, in_app_iff in H. destruct H as [H|H]; [|exact H].
    rewrite (forallb_In _ _ _ Hv H) in E. discriminate.
  - rewrite (forallb_In _ _ _ Hw H) in E. discriminate.
Qed.

Lemma forallb_skipn (p : codepoint -> bool) n s :
  forallb p s = true -> forallb p (skipn n s) = true.
Proof.
  revert s; induction n as [|n IH]; intros [|c s]; simpl; auto.
  rewrite andb_true_iff. intros [_ H]. auto.
Qed.

Lemma strip_all_space s : forallb is_space s = true -> strip s = [].
Proof.
  intros H. unfold strip. apply rstrip_nil in H. rewrite H. reflexivity.
Qed.

Lemma strip_nil s : strip s = [] <-> forallb is_space s = true.
Proof.
  split; [|apply strip_all_space].
  unfold strip. rewrite lstrip_nil. intros H.
  destruct (rstrip_decomp s) as [w [Hs Hw]].
  rewrite Hs, forallb_app, H, Hw. reflexivity.
Qed.

(** The heading text does not depend on the trailing whitespace removed
    from the line first. *)
Lemma strip_skipn_rstrip n s : strip (skipn n (rstrip s)) = strip (skipn n s).
Proof.
  revert n; induction s as [|c s IH]; intros n.
  - reflexivity.
  - destruct n as [|n]; [apply strip_rstrip|].
    rewrite rstrip_cons. destruct (rstrip s) eqn:R.
    + apply rstrip_nil in R. simpl skipn at 2.
      rewrite (strip_all_space _ (forallb_skipn _ n _ R)).
      destruct (is_space c); simpl; destruct n; reflexivity.
    + simpl skipn. apply IH.
Qed.

Lemma startswith_rstrip raw p :
  startswith (rstrip raw) p = true -> startswith raw p = true.
Proof.
  rewrite !startswith_app. intros [t H].
  destruct (rstrip_decomp raw) as [w [Hs _]].
  exists (t ++ w). rewrite Hs at 1. rewrite H, app_assoc. reflexivity.
Qed.

Lemma rstrip_app_space a b :
  forallb is_space b = true -> rstrip (a ++ b) = rstrip a.
Proof.
  intros H. unfold rstrip. rewrite rev_app_distr, lstrip_app, forallb_rev, H.
  reflexivity.
Qed.

Lemma rstrip_length s : length (rstrip s) <= length s.
Proof.
  destruct (rstrip_decomp s) as [w [Hs _]].
  rewrite Hs at 2. rewrite length_app. lia.
Qed.

(** ** The loop *)

Lemma emits_flag f raw recs f' :
  emits f raw recs f' -> f' = f || is_hr_line raw.
Proof.
  intros H; destruct H;
    try (match goal with H : is_hr_line raw = _ |- _ => rewrite H end;
         auto using orb_false_r, orb_true_r).
  assert (E : is_hr_line raw = false).
  { unfold is_blank_line, is_hr_line in *.
    match goal with H : str_eqb _ [] = true |- _ =>
      apply str_eqb_eq in H; rewrite H end. reflexivity. }
  rewrite E. symmetry; apply orb_false_r.
Qed.

Lemma for_lines_runs lines out f :
  exists rs f',
    runs f lines rs f' /\ for_lines lines (out, f) = Ok (out ++ concat rs, f').
Proof.
  revert out f; induction lines as [|raw rest IH]; intros out f.
  - exists [], f. split; [constructor | simpl; rewrite app_nil_r; reflexivity].
  - destruct (loop_body_emits raw (out, f)) as [recs [f1 [He Hl]]].
    cbn [fst snd] in *.
    destruct (IH (out ++ recs) f1) as [rs [f' [Hr Hf]]].
    exists (recs :: rs), f'. split; [econstructor; eassumption|].
    simpl. rewrite Hl. cbn [bind]. rewrite Hf, <- app_assoc. reflexivity.
Qed.

Lemma runs_length f lines rs f' : runs f lines rs f' -> length rs = length lines.
Proof. induction 1; simpl; auto. Qed.

Lemma runs_functional f lines rs1 f1 rs2 f2 :
  runs f lines rs1 f1 -> runs f lines rs2 f2 -> rs1 = rs2 /\ f1 = f2.
Proof.
  intros H; revert rs2 f2; induction H as [f|f raw recs g rest rs f' He Hr IH];
    intros rs2 f2 H2; inversion H2; subst; auto.
  match goal with H : emits f raw _ _ |- _ =>
    destruct (emits_functional He H) as [-> ->] end.
  match goal with H : runs _ rest _ _ |- _ =>
    destruct (IH _ _ H) as [-> ->] end.
  auto.
Qed.

Lemma runs_flag f lines rs f' :
  runs f lines rs f' -> f' = f || existsb is_hr_line lines.
Proof.
  induction 1 as [f|f raw recs g rest rs f' He Hr IH]; simpl.
  - symmetry; apply orb_false_r.
  - rewrite IH, (emits_flag He), orb_assoc. reflexivity.
Qed.

Lemma runs_firstn f lines rs f' j :
  runs f lines rs f' ->
  runs f (firstn j lines) (firstn j rs) (f || existsb is_hr_line (firstn j lines)).
Proof.
  intros H; revert j; induction H as [f|f raw recs g rest rs f' He Hr IH];
    intros [|j]; simpl; rewrite ?orb_false_r; try constructor.
  econstructor; [exact He|].
  rewrite orb_assoc, <- (emits_flag He). apply IH.
Qed.

Lemma runs_nth f lines rs f' j raw :
  runs f lines rs f' -> nth_error lines j = Some raw ->
  exists recs g,
    nth_error rs j = Some recs /\
    emits (f || existsb is_hr_line (firstn j lines)) raw recs g.
Proof.
  intros H; revert j; induction H as [f|f raw0 recs g rest rs f' He Hr IH];
    intros [|j]; simpl; try discriminate.
  - intros E; injection E as <-. rewrite orb_false_r. eauto.
  - intros E. destruct (IH _ E) as [recs' [g' [Hn He']]].
    exists recs', g'. split; [exact Hn|].
    rewrite orb_assoc, <- (emits_flag He). exact He'.
Qed.

(** The loop state at a position: the records of the lines before it,
    and the flag, which is set when one of them is a rule. *)
Lemma state_at_runs lines j :
  exists rs,
    runs false (firstn j lines) rs (existsb is_hr_line (firstn j lines)) /\
    state_at lines j = Ok (concat rs, existsb is_hr_line (firstn j lines)).
Proof.
  unfold state_at.
  destruct (for_lines_runs (firstn j lines) [] false) as [rs [f' [Hr Hf]]].
  pose proof (runs_flag Hr) as E. simpl in E. subst f'.
  exists rs. split; [exact Hr | exact Hf].
Qed.

Lemma in_footer_at_spec lines j :
  in_footer_at lines j = Ok (existsb is_hr_line (firstn j lines)).
Proof.
  unfold in_footer_at. destruct (state_at_runs lines j) as [rs [_ ->]].
  reflexivity.
Qed.

(** The records a line appends are those of its branch, taken with the
    flag the lines before it have set. *)
Lemma records_at_emits lines j raw recs f' :
  nth_error lines j = Some raw ->
  emits (existsb is_hr_line (firstn j lines)) raw recs f' ->
  records_at lines j = Ok recs.
Proof.
  intros Hn He. unfold records_at.
  destruct (state_at_runs lines j) as [rs [_ ->]]. cbn [bind fst].
  rewrite Hn, (loop_body_of_emits _ He). cbn [bind fst].
  rewrite skipn_app, skipn_all, Nat.sub_diag. reflexivity.
Qed.

Lemma split_lines_total md :
  split_lines md =
  Ok (split_from [LF] (str_replace (str_replace md [CR; LF] [LF]) [CR] [LF]) [] 0).
Proof. reflexivity. Qed.

(** The output of [parse_markdown] is the records of its lines, in the
    order of the lines. *)
Lemma parse_markdown_runs md :
  exists lines rs f',
    split_lines md = Ok lines /\ runs false lines rs f' /\
    parse_markdown md = Ok (concat rs).
Proof.
  unfold parse_markdown. rewrite split_lines_total. cbn [bind].
  match goal with |- context [for_lines ?l _] =>
    destruct (for_lines_runs l [] false) as [rs [f' [Hr Hf]]]; exists l end.
  exists rs, f'. rewrite Hf. auto.
Qed.

Lemma parse_markdown_records_at md :
  exists lines rs,
    split_lines md = Ok lines /\ parse_markdown md = Ok (concat rs) /\
    length rs = length lines /\
    forall j recs, nth_error rs j = Some recs -> records_at lines j = Ok recs.
Proof.
  destruct (parse_markdown_runs md) as [lines [rs [f' [Hs [Hr Hp]]]]].
  exists lines, rs. repeat split; auto.
  - apply (runs_length Hr).
  - intros j recs Hn.
    destruct (nth_error lines j) as [raw|] eqn:El.
    + destruct (runs_nth _ Hr El) as [recs' [g [Hn' He]]].
      simpl in He. rewrite Hn in Hn'. injection Hn' as <-.
      apply (records_at_emits _ _ El He).
    + apply nth_error_None in El. pose proof (runs_length Hr).
      assert (nth_error rs j = None) by (apply nth_error_None; lia).
      congruence.
Qed.

(** ** Heading lines *)

Lemma h1_content_raw raw : h1_content raw = strip (skipn 2 raw).
Proof. apply strip_skipn_rstrip. Qed.

(** A line that starts with a hash is neither blank nor a rule. *)
Lemma hash_line raw t :
  raw = 35%N :: t -> is_blank_line raw = false /\ is_hr_line raw = false.
Proof.
  intros ->. unfold is_blank_line, is_hr_line. rewrite strip_rstrip.
  destruct (strip_cons_nonspace 35%N t eq_refl) as [u ->]. split; reflexivity.
Qed.

Lemma startswith_hash s p :
  startswith s (35%N :: p) = true -> exists t, s = 35%N :: t.
Proof.
  intros H. apply startswith_app in H. destruct H as [t ->]. eexists; reflexivity.
Qed.

Lemma is_h1_line_false_remainder raw :
  is_h1_line raw = false -> h1_has_remainder raw = false.
Proof.
  intros H. unfold h1_has_remainder.
  destruct (startswith raw (py "# ")) eqn:E; [|reflexivity].
  apply startswith_app in E. destruct E as [t ->].
  change (py "# " ++ t) with (35%N :: 32%N :: t) in *.
  unfold is_h1_line in H. rewrite !rstrip_cons in H.
  unfold h1_remainder. simpl skipn.
  destruct (rstrip t) eqn:R.
  - apply rstrip_nil in R. rewrite (strip_all_space _ R). reflexivity.
  - discriminate H.
Qed.

Lemma is_heading_line_false raw :
  is_heading_line raw = false ->
  is_h1_line raw = false /\ is_h2_line raw = false /\ is_h3_line raw = false.
Proof.
  unfold is_heading_line. intros H.
  apply orb_false_iff in H. destruct H as [H H3].
  apply orb_false_iff in H. destruct H as [H1 H2]. auto.
Qed.

(** A line appends one record, or two when it is a heading with a
    remainder. *)
Lemma emits_length f raw recs f' :
  emits f raw recs f' ->
  length recs = if h1_has_remainder raw then 2 else 1.
Proof.
  intros H.
  destruct H as [Hb|Hb Hh|main sep rest Hb Hh H1 P R|main sep rest Hb Hh H1 P R
                |Hb Hh H1 H2|Hb Hh H1 H2 H3|g0 g1 g2 Hb Hh Hd Hc
                |g0 g1 g2 g3 Hb Hh Hd Hc Hbu|Hb Hh Hd Hc Hbu];
    try (apply is_heading_line_false in Hd; destruct Hd as [H1 _]);
    try (rewrite (is_h1_line_false_remainder _ H1); reflexivity).
  - unfold h1_has_remainder.
    destruct (startswith raw (py "# ")) eqn:E; [|reflexivity].
    apply startswith_hash in E. destruct E as [t E].
    destruct (hash_line E). congruence.
  - unfold h1_has_remainder.
    destruct (startswith raw (py "# ")) eqn:E; [|reflexivity].
    apply startswith_hash in E. destruct E as [t E].
    destruct (hash_line E). congruence.
  - unfold h1_has_remainder, h1_remainder.
    rewrite <- h1_content_raw, P. cbn [snd]. rewrite R.
    rewrite andb_false_r. reflexivity.
  - unfold h1_has_remainder, h1_remainder.
    rewrite <- h1_content_raw, P. cbn [snd].
    apply str_eqb_neq in R. rewrite R.
    unfold is_h1_line in H1. rewrite (startswith_rstrip _ _ H1). reflexivity.
Qed.

Lemma runs_count f lines rs f' :
  runs f lines rs f' ->
  length (concat rs) = length lines + length (filter h1_has_remainder lines).
Proof.
  induction 1 as [f|f raw recs g rest rs f' He Hr IH]; [reflexivity|].
  simpl. rewrite length_app, IH, (emits_length He).
  destruct (h1_has_remainder raw); simpl; lia.
Qed.

(** [partition] splits at the separator exactly when the text contains
    it. *)
Lemma partition_from_spec sep s before :
  sep <> [] ->
  if str_contains s sep
  then exists a b, s = a ++ sep ++ b /\
                   partition_from sep s before = (rev before ++ a, sep, b)
  else partition_from sep s before = (rev before ++ s, [], []).
Proof.
  intros Hsep. revert before; induction s as [|c t IH]; intros before.
  - destruct sep as [|x sep]; [contradiction|]. simpl. rewrite app_nil_r. reflexivity.
  - cbn [str_contains partition_from].
    destruct (startswith (c :: t) sep) eqn:E.
    + cbn [orb]. exists [], (skipn (length sep) (c :: t)). split; [|rewrite app_nil_r; reflexivity].
      apply startswith_app in E. destruct E as [t' ->].
      rewrite skipn_app, skipn_all, Nat.sub_diag. reflexivity.
    + cbn [orb]. specialize (IH (c :: before)).
      destruct (str_contains t sep).
      * destruct IH as [a [b [-> IH]]]. exists (c :: a), b.
        split; [reflexivity|]. rewrite IH. simpl. rewrite <- app_assoc. reflexivity.
      * rewrite IH. simpl. rewrite <- app_assoc. reflexivity.
Qed.

(** In a text without trailing whitespace, what follows a separator is
    not blank. *)
Lemma after_separator title a b :
  rstrip title = title -> title = a ++ py " - " ++ b -> strip b <> [].
Proof.
  intros Hr Ht Hb. apply strip_nil in Hb.
  assert (E : title = (a ++ [32%N; 45%N]) ++ (32%N :: b)).
  { rewrite Ht, <- app_assoc. reflexivity. }
  assert (Hs : forallb is_space (32%N :: b) = true) by (simpl; exact Hb).
  pose proof (rstrip_length (a ++ [32%N; 45%N])) as L.
  rewrite <- (rstrip_app_space _ _ Hs), <- E, Hr, E in L.
  rewrite !length_app in L. simpl in L. lia.
Qed.

Lemma is_h1_line_hash raw :
  is_h1_line raw = true -> is_blank_line raw = false /\ is_hr_line raw = false.
Proof.
  intros H. unfold is_h1_line in H. apply startswith_rstrip in H.
  apply startswith_hash in H. destruct H as [t H]. apply (hash_line H).
Qed.

(** The number of records of a line, by its branch. *)
Lemma emits_shape f raw recs f' :
  emits f raw recs f' ->
  if is_h1_line raw && str_contains (h1_content raw) (py " - ")
  then exists r1 r2, recs = [r1; r2] /\ kind r1 = "h1"%string /\
                     kind r2 = "text"%string
  else exists r, recs = [r].
Proof.
  intros H.
  destruct H as [Hb|Hb Hh|main sep rest Hb Hh H1 P R|main sep rest Hb Hh H1 P R
                |Hb Hh H1 H2|Hb Hh H1 H2 H3|g0 g1 g2 Hb Hh Hd Hc
                |g0 g1 g2 g3 Hb Hh Hd Hc Hbu|Hb Hh Hd Hc Hbu];
    try (apply is_heading_line_false in Hd; destruct Hd as [H1 _]);
    try (rewrite H1; cbn [andb]; eexists; reflexivity).
  - destruct (is_h1_line raw) eqn:E; [|eexists; reflexivity].
    destruct (is_h1_line_hash _ E). congruence.
  - destruct (is_h1_line raw) eqn:E; [|eexists; reflexivity].
    destruct (is_h1_line_hash _ E). congruence.
  - rewrite H1. cbn [andb].
    assert (S := @partition_from_spec (py " - ") (h1_content raw) []
                   ltac:(discriminate)).
    destruct (str_contains (h1_content raw) (py " - ")); [|eexists; reflexivity].
    destruct S as [a [b [Ht S]]].
    rewrite P in S. injection S as _ _ ->.
    exfalso. apply (@after_separator (h1_content raw) a b (rstrip_strip _) Ht R).
  - rewrite H1. cbn [andb].
    assert (S := @partition_from_spec (py " - ") (h1_content raw) []
                   ltac:(discriminate)).
    destruct (str_contains (h1_content raw) (py " - ")).
    + eexists _, _. repeat split.
    + rewrite P in S. injection S as _ _ ->. exfalso. apply R. reflexivity.
Qed.

(** ** Lines by class *)

Ltac emits_cases H :=
  destruct H as [Hb|Hb Hh|main sep rest Hb Hh H1 P R|main sep rest Hb Hh H1 P R
                |Hb Hh H1 H2|Hb Hh H1 H2 H3|g0 g1 g2 Hb Hh Hd Hc
                |g0 g1 g2 g3 Hb Hh Hd Hc Hbu|Hb Hh Hd Hc Hbu].

Lemma is_hr_line_strip raw : is_hr_line raw = true <-> strip raw = py "---".
Proof. unfold is_hr_line. rewrite strip_rstrip. apply str_eqb_eq. Qed.

Lemma blank_not_hr raw : is_blank_line raw = true -> is_hr_line raw = false.
Proof.
  unfold is_blank_line, is_hr_line. intros H. apply str_eqb_eq in H.
  rewrite H. reflexivity.
Qed.

Lemma heading_line_hash raw :
  is_heading_line raw = true -> exists t, rstrip raw = 35%N :: t.
Proof.
  unfold is_heading_line, is_h1_line, is_h2_line, is_h3_line. intros H.
  apply orb_true_iff in H. destruct H as [H|H];
    [apply orb_true_iff in H; destruct H as [H|H]|];
    apply startswith_hash in H; exact H.
Qed.

Lemma heading_line_class raw :
  is_heading_line raw = true ->
  is_blank_line raw = false /\ is_hr_line raw = false.
Proof.
  intros H. apply heading_line_hash in H. destruct H as [t H].
  unfold is_blank_line, is_hr_line. rewrite H.
  destruct (strip_cons_nonspace 35%N t eq_refl) as [u ->]. split; reflexivity.
Qed.

(** The three heading prefixes exclude one another. *)
Lemma heading_prefixes raw :
  (is_h2_line raw = true -> is_h1_line raw = false) /\
  (is_h3_line raw = true -> is_h1_line raw = false /\ is_h2_line raw = false).
Proof.
  unfold is_h1_line, is_h2_line, is_h3_line. split; intros H;
    apply startswith_app in H; destruct H as [t ->]; auto.
Qed.

(** A line the checkbox pattern matches reaches the checkbox branch: it
    is not blank, not a rule and not a heading. *)
Lemma checkbox_line_class raw :
  is_checkbox_line raw = true ->
  is_blank_line raw = false /\ is_hr_line raw = false /\
  is_heading_line raw = false.
Proof.
  unfold is_checkbox_line. intros H.
  destruct (re_match CHECKBOX_RE (rstrip raw)) as [m|] eqn:E; [clear H|discriminate].
  apply re_match_in in E. destruct E as [g0 [gs [r [_ E]]]].
  apply in_CHECKBOX_RE in E.
  destruct E as [g1 [w2 [w3 [g2 [_ [Hl [Hg1 _]]]]]]].
  assert (Hin : In 91%N (strip (rstrip raw))).
  { apply In_strip; [reflexivity|]. rewrite Hl.
    rewrite !in_app_iff. right; right; right; left. simpl; auto. }
  repeat split.
  - unfold is_blank_line. apply str_eqb_neq. intros E. rewrite E in Hin. exact Hin.
  - unfold is_hr_line. apply str_eqb_neq. intros E. rewrite E in Hin.
    simpl in Hin. intuition discriminate.
  - destruct (is_heading_line raw) eqn:Hd; [|reflexivity].
    apply heading_line_hash in Hd. destruct Hd as [t Hd]. rewrite Hd in Hl.
    destruct g1 as [|c g1]; simpl in Hl, Hg1; injection Hl as Hc _.
    + discriminate Hc.
    + subst c. discriminate Hg1.
Qed.

Lemma emits_checkbox_line f raw recs f' :
  emits f raw recs f' -> is_checkbox_line raw = true ->
  exists r, recs = [r] /\ kind r = "checkbox"%string /\ f' = f.
Proof.
  intros H Hc'. destruct (checkbox_line_class _ Hc') as [Cb [Ch Cd]].
  pose proof (is_heading_line_false _ Cd) as [C1 [C2 C3]].
  unfold is_checkbox_line in Hc'. emits_cases H; try congruence.
  - eexists; repeat split.
  - rewrite Hc in Hc'. discriminate.
  - rewrite Hc in Hc'. discriminate.
Qed.

Lemma emits_not_checkbox f raw recs f' :
  emits f raw recs f' -> is_checkbox_line raw = false ->
  Forall (fun r => kind r <> "checkbox"%string) recs.
Proof.
  intros H Hc'. unfold is_checkbox_line in Hc'.
  emits_cases H; repeat constructor; cbn [kind]; try discriminate.
  - rewrite Hc in Hc'. discriminate.
  - destruct f; discriminate.
  - destruct f; discriminate.
Qed.

(** In footer mode every line that is not blank, a rule, a heading or a
    checkbox is a footer line. *)
Lemma emits_footer_mode raw recs f' :
  emits true raw recs f' ->
  is_blank_line raw = false -> is_hr_line raw = false ->
  is_heading_line raw = false -> is_checkbox_line raw = false ->
  exists r, recs = [r] /\ kind r = "footer"%string.
Proof.
  intros H Cb Ch Cd Cc. pose proof (is_heading_line_false _ Cd) as [C1 [C2 C3]].
  unfold is_checkbox_line in Cc. emits_cases H; try congruence.
  - rewrite Hc in Cc. discriminate.
  - eexists; split; reflexivity.
  - eexists; split; reflexivity.
Qed.

(** Outside footer mode no line is a footer line. *)
Lemma emits_no_footer raw recs f' :
  emits false raw recs f' -> Forall (fun r => kind r <> "footer"%string) recs.
Proof.
  intros H. emits_cases H; repeat constructor; cbn [kind]; discriminate.
Qed.

Lemma emits_kinds f raw recs f' :
  emits f raw recs f' -> Forall (fun r => In (kind r) kinds) recs.
Proof.
  intros H. emits_cases H; repeat apply Forall_cons; try apply Forall_nil;
    cbn [kind Paragraph_default]; try destruct f; unfold kinds; simpl; auto 10.
Qed.

Lemma emits_hr_line f raw recs f' :
  emits f raw recs f' -> is_hr_line raw = true ->
  recs = [Paragraph_default "hr" []] /\ f' = true.
Proof.
  intros H Ch. emits_cases H; try congruence; auto.
  rewrite (blank_not_hr _ Hb) in Ch. discriminate.
Qed.

(** A heading line gives its heading record, and for h1 possibly a text
    record, whatever the footer flag, and leaves the flag as it is. *)
Lemma emits_heading f raw recs f' :
  emits f raw recs f' -> is_heading_line raw = true ->
  f' = f /\
  (is_h1_line raw = true ->
     exists t, recs = [Paragraph_default "h1" t] \/
               exists s, recs = [Paragraph_default "h1" t;
                                 Paragraph_default "text" s]) /\
  (is_h2_line raw = true ->
     recs = [Paragraph_default "h2" (strip (skipn 3 (rstrip raw)))]) /\
  (is_h3_line raw = true ->
     recs = [Paragraph_default "h3" (strip (skipn 4 (rstrip raw)))]).
Proof.
  intros H Hd'. destruct (heading_line_class _ Hd') as [Cb Ch].
  destruct (heading_prefixes raw) as [P2 P3].
  emits_cases H; try congruence.
  - repeat split; try (intros E; try apply P2 in E; try apply P3 in E;
                       intuition congruence).
    intros _. eexists; left; reflexivity.
  - repeat split; try (intros E; try apply P2 in E; try apply P3 in E;
                       intuition congruence).
    intros _. eexists; right; eexists; reflexivity.
  - repeat split; try (intros E; try apply P3 in E; intuition congruence).
  - repeat split; try (intros E; intuition congruence).
Qed.

(** The record of a checkbox line does not depend on the footer flag. *)
Lemma checkbox_record raw :
  is_checkbox_line raw = true ->
  exists r, kind r = "checkbox"%string /\ forall f, emits f raw [r] f.
Proof.
  intros Hc. destruct (checkbox_line_class _ Hc) as [Cb [Ch Cd]].
  unfold is_checkbox_line in Hc.
  destruct (re_match CHECKBOX_RE (rstrip raw)) as [m|] eqn:E; [|discriminate].
  destruct (re_match_CHECKBOX_groups _ E) as [g0 [g1 [g2 ->]]].
  eexists. split; [|intros f; apply (emits_checkbox f raw Cb Ch Cd E)].
  reflexivity.
Qed.

Lemma firstn_snoc A (l : list A) j x :
  nth_error l j = Some x -> firstn (S j) l = firstn j l ++ [x].
Proof.
  revert j; induction l as [|a l IH]; intros [|j] H; simpl in H;
    try discriminate.
  - injection H as ->. reflexivity.
  - rewrite !firstn_cons, (IH _ H). reflexivity.
Qed.

(** Trimming on the right stops at a character that is not whitespace. *)
Lemma rstrip_app_nonspace a c rest :
  is_space c = false -> exists u, rstrip (a ++ c :: rest) = a ++ c :: u.
Proof.
  intros E. induction a as [|x a [u IH]].
  - apply (rstrip_cons_nonspace c rest E).
  - exists u. simpl. rewrite rstrip_cons, IH. destruct a; reflexivity.
Qed.

(** A run of a class that ends at a character outside the class is
    determined by the text. *)
Lemma span_unique (p : codepoint -> bool) a a' x x' t t' :
  forallb p a = true -> forallb p a' = true ->
  p x = false -> p x' = false ->
  a ++ x :: t = a' ++ x' :: t' -> a = a' /\ x = x' /\ t = t'.
Proof.
  revert a'; induction a as [|y a IH]; intros [|y' a']; simpl;
    intros Ha Ha' Hx Hx' E; injection E as E1 E2.
  - auto.
  - subst y'. apply andb_true_iff in Ha'. destruct Ha' as [Hy _]. congruence.
  - subst y. apply andb_true_iff in Ha. destruct Ha as [Hy _]. congruence.
  - apply andb_true_iff in Ha. apply andb_true_iff in Ha'.
    destruct Ha as [_ Ha]. destruct Ha' as [_ Ha'].
    destruct (IH _ Ha Ha' Hx Hx' E2) as [-> [-> ->]]. subst y'. auto.
Qed.

(** The checkbox pattern needs whitespace after the box: a line with a
    character that is not whitespace right after it does not match. *)
Lemma no_space_after_box indent w2 c rest :
  forallb is_space indent = true -> forallb is_space w2 = true ->
  is_space c = false ->
  is_checkbox_line (indent ++ py "-" ++ w2 ++ py "[ ]" ++ c :: rest) = false.
Proof.
  intros Hi Hw Hc. unfold is_checkbox_line.
  destruct (re_match CHECKBOX_RE _) as [m|] eqn:E; [|reflexivity].
  exfalso. apply re_match_in in E. destruct E as [g0 [gs [r [_ E]]]].
  apply in_CHECKBOX_RE in E.
  destruct E as [g1 [v2 [w3 [g2 [_ [Hl [Hg1 [Hv2 [Hw3 [Hne _]]]]]]]]]].
  destruct (rstrip_app_nonspace (indent ++ py "-" ++ w2 ++ py "[ ]") c rest Hc)
    as [u Hu].
  replace ((indent ++ py "-" ++ w2 ++ py "[ ]") ++ c :: rest)
    with (indent ++ py "-" ++ w2 ++ py "[ ]" ++ c :: rest) in Hu
    by (rewrite <- !app_assoc; reflexivity).
  rewrite Hu in Hl. rewrite <- !app_assoc in Hl.
  change (py "-" ++ ?x) with (45%N :: x) in Hl.
  destruct (@span_unique is_space _ _ 45%N 45%N _ _ Hi Hg1 eq_refl eq_refl Hl)
    as [_ [_ Hl2]].
  change (py "[ ]" ++ ?x) with (91%N :: 32%N :: 93%N :: x) in Hl2.
  destruct (@span_unique is_space _ _ 91%N 91%N _ _ Hw Hv2 eq_refl eq_refl Hl2)
    as [_ [_ Hl3]].
  injection Hl3 as Hl3.
  destruct w3 as [|d w3]; [contradiction|].
  simpl in Hl3, Hw3. injection Hl3 as -> _.
  apply andb_true_iff in Hw3. destruct Hw3 as [Hd _]. congruence.
Qed.

(** ** The footer flag along the lines *)

Lemma hr_before lines i j l :
  nth_error lines i = Some l -> is_hr_line l = true -> i < j ->
  existsb is_hr_line (firstn j lines) = true.
Proof.
  intros Hn Hh Hij. apply existsb_exists. exists l. split; [|exact Hh].
  apply nth_error_In with (n := i). rewrite nth_error_firstn.
  apply Nat.ltb_lt in Hij. rewrite Hij. exact Hn.
Qed.

Lemma no_hr_before lines i j :
  (forall k l, k < i -> nth_error lines k = Some l -> is_hr_line l = false) ->
  j <= i -> existsb is_hr_line (firstn j lines) = false.
Proof.
  intros Hno Hji. destruct (existsb is_hr_line (firstn j lines)) eqn:E; [|reflexivity].
  apply existsb_exists in E. destruct E as [l [Hin Hh]].
  apply In_nth_error in Hin. destruct Hin as [k Hk].
  rewrite nth_error_firstn in Hk. destruct (Nat.ltb k j) eqn:Hkj; [|discriminate].
  apply Nat.ltb_lt in Hkj. rewrite (Hno k l) in Hh; [discriminate|lia|exact Hk].
Qed.

Lemma records_at_total lines j raw :
  nth_error lines j = Some raw ->
  exists recs f',
    emits (existsb is_hr_line (firstn j lines)) raw recs f' /\
    records_at lines j = Ok recs.
Proof.
  intros Hn.
  destruct (loop_body_emits raw ([], existsb is_hr_line (firstn j lines)))
    as [recs [f' [He _]]]. cbn [snd] in He.
  exists recs, f'. split; [exact He | apply (records_at_emits _ _ Hn He)].
Qed.

(** ** Mention spans *)

Lemma run_le_length cls s : run cls s <= length s.
Proof.
  induction s as [|c t IH]; simpl; [lia|]. destruct (cls c); simpl; lia.
Qed.

Lemma run_word cls s i :
  i < run cls s -> exists c, nth_error s i = Some c /\ cls c = true.
Proof.
  revert i; induction s as [|c t IH]; intros i; simpl; [lia|].
  destruct (cls c) eqn:E; [|lia].
  destruct i as [|i]; simpl; [eauto|]. intros H. apply IH. lia.
Qed.

Lemma run_stop cls s c :
  nth_error s (run cls s) = Some c -> cls c = false.
Proof.
  induction s as [|d t IH]; simpl; [discriminate|].
  destruct (cls d) eqn:E; simpl; [exact IH|].
  intros H; injection H as <-. exact E.
Qed.

Lemma run_firstn cls s : forallb cls (firstn (run cls s) s) = true.
Proof.
  induction s as [|c t IH]; simpl; [reflexivity|].
  destruct (cls c) eqn:E; simpl; [rewrite E; exact IH | reflexivity].
Qed.

(** The run is the only prefix of the class that stops at a character
    outside it or at the end. *)
Lemma run_unique cls s n :
  n <= length s -> forallb cls (firstn n s) = true ->
  (forall c, nth_error s n = Some c -> cls c = false) ->
  n = run cls s.
Proof.
  revert n; induction s as [|c t IH]; intros n; simpl.
  - lia.
  - destruct n as [|n]; simpl.
    + intros _ _ H. rewrite (H c eq_refl). reflexivity.
    + intros Hn Hf Hs. apply andb_true_iff in Hf. destruct Hf as [Hc Hf].
      rewrite Hc. f_equal. apply IH; [lia | exact Hf | exact Hs].
Qed.

(** The greedy star tries the run first. *)
Lemma star_head cls s :
  exists tl, star cls s = (firstn (run cls s) s, skipn (run cls s) s) :: tl.
Proof.
  induction s as [|c t [tl IH]]; simpl.
  - eexists; reflexivity.
  - destruct (cls c); [|eexists; reflexivity].
    rewrite IH. simpl. eexists; reflexivity.
Qed.

(** What [MENTION_RE] reports at the start of a text. *)
Lemma MENTION_RE_head s :
  match MENTION_RE s with
  | [] => forall t, s = 64%N :: t -> run is_word t = 0
  | (_, rest) :: _ =>
      exists t, s = 64%N :: t /\ 0 < run is_word t /\
                rest = skipn (run is_word t) t
  end.
Proof.
  unfold MENTION_RE, m_bind, m_ret, lit.
  destruct s as [|c t]; [simpl; discriminate|].
  cbn [startswith py map list_ascii_of_string].
  change (N_of_ascii "@") with 64%N.
  destruct (64 =? c)%N eqn:E; cbn [andb flat_map fst snd length skipn].
  - apply N.eqb_eq in E. subst c. rewrite app_nil_r. unfold plus.
    destruct t as [|d t']; [simpl; intros t E; injection E as <-; reflexivity|].
    cbn [run]. destruct (is_word d) eqn:Ed.
    + destruct (star_head is_word t') as [tl ->]. cbn [map flat_map fst snd app].
      eexists. split; [reflexivity|]. cbn [run]. rewrite Ed.
      split; [lia | reflexivity].
    + simpl. intros t E. injection E as <-. simpl. rewrite Ed. reflexivity.
  - intros t0 E0. injection E0 as E0 _. subst c. discriminate E.
Qed.

Lemma token_at_lt s a b : token_at s a b -> a < b.
Proof.
  intros [_ [[w [_ [_ H]]] _]].
  destruct (b - a) eqn:E; [simpl in H; discriminate | lia].
Qed.

Lemma token_at_start s a b : token_at s a b -> nth_error s a = Some 64%N.
Proof.
  intros H. pose proof (token_at_lt H) as L.
  destruct H as [_ [[w [_ [_ H]]] _]].
  rewrite <- (Nat.add_0_r a), <- nth_error_skipn.
  destruct (b - a) eqn:E; [lia|].
  destruct (skipn a s); simpl in H; [discriminate|].
  injection H as -> _. reflexivity.
Qed.

Lemma token_at_shift c t a b : token_at (c :: t) (S a) (S b) <-> token_at t a b.
Proof.
  unfold token_at. simpl. rewrite <- Nat.succ_le_mono. tauto.
Qed.

Lemma token_at_succ c t a b :
  token_at (c :: t) (S a) b -> exists b', b = S b' /\ token_at t a b'.
Proof.
  intros H. pose proof (token_at_lt H). destruct b as [|b']; [lia|].
  exists b'. split; [reflexivity | apply token_at_shift in H; exact H].
Qed.

Lemma token_at_zero s b :
  token_at s 0 b <->
  exists t, s = 64%N :: t /\ 0 < run is_word t /\ b = S (run is_word t).
Proof.
  unfold token_at. rewrite Nat.sub_0_r. cbn [skipn]. split.
  - intros [Hb [[w [Hne [Hw Hf]]] Hs]].
    destruct b as [|n]; [simpl in Hf; discriminate|].
    destruct s as [|c t]; [simpl in Hf; discriminate|].
    simpl in Hf, Hb, Hs. injection Hf as -> Hf. subst w.
    assert (E : n = run is_word t).
    { apply run_unique; [lia | exact Hw | exact Hs]. }
    exists t. repeat split; [|congruence].
    destruct n; [simpl in Hne; contradiction | lia].
  - intros [t [-> [Hr ->]]]. simpl. repeat split.
    + pose proof (run_le_length is_word t). lia.
    + exists (firstn (run is_word t) t). repeat split.
      * destruct (run is_word t) eqn:E; [lia|].
        destruct t; simpl in *; [discriminate E | discriminate].
      * apply run_firstn.
    + apply run_stop.
Qed.

Lemma ordered_from_weaken lo lo' l :
  lo' <= lo -> ordered_from lo l -> ordered_from lo' l.
Proof.
  destruct l as [|[a b] l]; simpl; [auto|]. intros H [H1 H2]. split; [lia|exact H2].
Qed.

(** The length of a match, from what the pattern reports. *)
Lemma match_length (t : str) r :
  r <= length t -> length (64%N :: t) - length (skipn r t) = S r.
Proof. intros H. rewrite length_skipn. cbn [length]. lia. Qed.

Lemma finditer_from_ordered s pos skip :
  ordered_from (pos + skip) (finditer_from MENTION_RE s pos skip).
Proof.
  revert pos skip; induction s as [|c t IH]; intros pos skip; [exact I|].
  cbn [finditer_from]. destruct skip as [|k].
  - pose proof (MENTION_RE_head (c :: t)) as M.
    destruct (MENTION_RE (c :: t)) as [|[gs rest] tl].
    + apply ordered_from_weaken with (lo := S pos + 0); [lia | apply IH].
    + destruct M as [t0 [E [Hr ->]]]. injection E as -> <-.
      rewrite (match_length _ (run_le_length is_word t)).
      cbn [ordered_from]. split; [lia|]. split; [lia|].
      replace (pos + S (run is_word t)) with (S pos + (S (run is_word t) - 1))
        by lia.
      apply IH.
  - replace (pos + S k) with (S pos + k) by lia. apply IH.
Qed.

Ltac span_goal := split; [lia|]; split; [lia|]; split; [lia|].

(** [finditer] finds exactly the tokens that start at or after the
    position where the search stands. *)
Lemma finditer_from_tokens s pos skip a b :
  In (a, b) (finditer_from MENTION_RE s pos skip) <->
  exists a' b', a = pos + a' /\ b = pos + b' /\ skip <= a' /\ token_at s a' b'.
Proof.
  revert pos skip a b; induction s as [|c t IH]; intros pos skip a b.
  - simpl. split; [intros []|].
    intros [a' [b' [_ [_ [_ H]]]]]. pose proof (token_at_lt H).
    destruct H as [H _]. simpl in H. lia.
  - cbn [finditer_from]. destruct skip as [|k].
    + pose proof (MENTION_RE_head (c :: t)) as M.
      destruct (MENTION_RE (c :: t)) as [|[gs rest] tl].
      * rewrite IH. split.
        -- intros [a' [b' [-> [-> [_ H]]]]].
           exists (S a'), (S b'). span_goal. apply token_at_shift; exact H.
        -- intros [a' [b' [-> [-> [_ H]]]]]. destruct a' as [|a'].
           ++ apply token_at_zero in H. destruct H as [t0 [E [Hr _]]].
              rewrite (M _ E) in Hr. lia.
           ++ apply token_at_succ in H. destruct H as [b0 [-> H]].
              exists a', b0. span_goal. exact H.
      * destruct M as [t0 [E [Hr ->]]]. injection E as -> <-.
        rewrite (match_length _ (run_le_length is_word t)).
        cbn [In]. rewrite IH. split.
        -- intros [E|[a' [b' [-> [-> [_ H]]]]]].
           ++ injection E as <- <-. exists 0, (S (run is_word t)).
              span_goal. apply token_at_zero.
              exists t. auto.
           ++ exists (S a'), (S b'). span_goal. apply token_at_shift; exact H.
        -- intros [a' [b' [-> [-> [_ H]]]]]. destruct a' as [|a'].
           ++ left. apply token_at_zero in H. destruct H as [t0 [E [_ ->]]].
              injection E as <-. f_equal; lia.
           ++ right. apply token_at_succ in H. destruct H as [b0 [-> H]].
              exists a', b0. split; [lia|]. split; [lia|]. split; [|exact H].
              destruct (Nat.lt_ge_cases a' (run is_word t)) as [L|L]; [|lia].
              apply run_word in L. destruct L as [d [Hd Hw]].
              rewrite (token_at_start H) in Hd. injection Hd as <-.
              discriminate Hw.
    + rewrite IH. split.
      * intros [a' [b' [-> [-> [Hk H]]]]].
        exists (S a'), (S b'). span_goal. apply token_at_shift; exact H.
      * intros [a' [b' [-> [-> [Hk H]]]]]. destruct a' as [|a']; [lia|].
        apply token_at_succ in H. destruct H as [b0 [-> H]].
        exists a', b0. span_goal. exact H.
Qed.

(** [_mention_spans] gives the maximal mention tokens of its argument,
    from left to right. *)
Lemma mention_spans_seq s : mention_seq s (_mention_spans s).
Proof.
  split.
  - apply (finditer_from_ordered s 0 0).
  - intros a b. unfold _mention_spans, finditer.
    rewrite finditer_from_tokens. split.
    + intros [a' [b' [-> [-> [_ H]]]]]. exact H.
    + intros H. exists a, b. span_goal. exact H.
Qed.

Lemma mention_seq_valid s l a b :
  mention_seq s l -> In (a, b) l -> a < b /\ b <= length s.
Proof.
  intros [_ H] Hin. apply H in Hin. split; [apply (token_at_lt Hin)|].
  destruct Hin as [Hb _]. exact Hb.
Qed.

(** A record built with the default, empty, mentions. *)
Lemma mentions_ok_default h1 k t :
  ~ In k ["checkbox"; "bullet"; "footer"]%string ->
  (k = "text"%string -> h1 = true \/ t = []) ->
  mentions_ok h1 (Paragraph_default k t).
Proof.
  intros Hk Ht. unfold mentions_ok. cbn [kind text mentions Paragraph_default].
  split; [reflexivity|]. split; [intros H; destruct (Hk H)|].
  split; [|intros a b []].
  intros E. destruct (Ht E) as [->| ->]; [reflexivity|].
  destruct h1; [reflexivity | apply (mention_spans_seq [])].
Qed.

(** A record built with the spans of its text. *)
Lemma mentions_ok_spans k t lvl :
  ~ In k ["h1"; "h2"; "h3"; "hr"]%string ->
  mentions_ok false (mkParagraph k t lvl (_mention_spans t)).
Proof.
  intros Hk. unfold mentions_ok. cbn [kind text mentions].
  split; [intros H; destruct (Hk H)|].
  split; [intros _; split; [reflexivity | apply mention_spans_seq]|].
  split; [intros _; apply mention_spans_seq|].
  intros a b. apply (@mention_seq_valid t _ a b (mention_spans_seq t)).
Qed.

Lemma not_In_kinds (k : string) (l : list string) :
  forallb (fun x => negb (String.eqb x k)) l = true -> ~ In k l.
Proof.
  intros H Hin. rewrite forallb_forall in H. specialize (H _ Hin).
  rewrite String.eqb_refl in H. discriminate.
Qed.

(** The mentions of the records of a line, by the branch taken. *)
Lemma emits_mentions f raw recs f' r :
  emits f raw recs f' -> In r recs -> mentions_ok (is_h1_line raw) r.
Proof.
  intros H Hin.
  emits_cases H;
    try (apply is_heading_line_false in Hd; destruct Hd as [H1 _]);
    simpl in Hin;
    repeat (destruct Hin as [<-|Hin]; [|try contradiction]).
  - apply mentions_ok_default; [apply not_In_kinds; reflexivity | auto].
  - apply mentions_ok_default; [apply not_In_kinds; reflexivity | discriminate].
  - apply mentions_ok_default; [apply not_In_kinds; reflexivity | discriminate].
  - apply mentions_ok_default; [apply not_In_kinds; reflexivity | discriminate].
  - apply mentions_ok_default; [apply not_In_kinds; reflexivity | auto].
  - apply mentions_ok_default; [apply not_In_kinds; reflexivity | discriminate].
  - apply mentions_ok_default; [apply not_In_kinds; reflexivity | discriminate].
  - rewrite H1. apply mentions_ok_spans. apply not_In_kinds; reflexivity.
  - rewrite H1. apply mentions_ok_spans.
    destruct f; apply not_In_kinds; reflexivity.
  - rewrite H1. apply mentions_ok_spans.
    destruct f; apply not_In_kinds; reflexivity.
Qed.

(** ** The claims *)

(** C1. The end-to-end scenario: the six-line sample parses to seven
    records, in this order: h1 Team Sync, text Weekly, h2 Action Items,
    checkbox with the mention at (0,6) and level 0, checkbox follow up
    at level 1, hr with empty text, footer Next meeting Friday at
    level 0. *)
Theorem end_to_end_scenario :
  parse_markdown
    (text_of_lines
       ["# Team Sync - Weekly"; "## Action Items";
        "- [ ] @alice sends report"; "  - [ ] follow up"; "---";
        "- Next meeting Friday"]%string)
  = Ok [mkParagraph "h1" (py "Team Sync") 0 [];
        mkParagraph "text" (py "Weekly") 0 [];
        mkParagraph "h2" (py "Action Items") 0 [];
        mkParagraph "checkbox" (py "@alice sends report") 0 [(0, 6)];
        mkParagraph "checkbox" (py "follow up") 1 [];
        mkParagraph "hr" [] 0 [];
        mkParagraph "footer" (py "Next meeting Friday") 0 []].
Proof. vm_compute. reflexivity. Qed.

(** C10. The empty string parses to exactly one record: kind text, empty
    text, level 0, no mentions; its only line is the empty line. *)
Theorem parse_empty_string :
  split_lines [] = Ok [[]] /\
  is_blank_line [] = true /\
  parse_markdown [] = Ok [mkParagraph "text" [] 0 []].
Proof. repeat split. Qed.

(** C3. The line-count invariant: the number of records is the number of
    lines of the input, plus one for every line that starts with a hash
    and a space and whose remainder after the split at the first
    separator is not empty once trimmed. *)
Theorem line_count_invariant (md : str) :
  exists lines out,
    split_lines md = Ok lines /\ parse_markdown md = Ok out /\
    length out = length lines + length (filter h1_has_remainder lines).
Proof.
  destruct (parse_markdown_runs md) as [lines [rs [f' [Hs [Hr Hp]]]]].
  exists lines, (concat rs). repeat split; auto. apply (runs_count Hr).
Qed.

(** C8. Every input line maps to exactly one record, except a heading
    line (a hash and a space first) whose content, the text after the
    prefix trimmed, contains the separator: it maps to exactly two
    records, the h1 record then a text record.  No other line gives
    more than one record. *)
Theorem one_record_per_line (md : str) :
  exists lines,
    split_lines md = Ok lines /\
    forall j raw, nth_error lines j = Some raw ->
      exists recs,
        records_at lines j = Ok recs /\
        if is_h1_line raw && str_contains (h1_content raw) (py " - ")
        then exists r1 r2, recs = [r1; r2] /\ kind r1 = "h1"%string /\
                           kind r2 = "text"%string
        else exists r, recs = [r].
Proof.
  destruct (parse_markdown_runs md) as [lines [rs [f' [Hs [Hr Hp]]]]].
  exists lines. split; [exact Hs|]. intros j raw Hn.
  destruct (runs_nth _ Hr Hn) as [recs [g [_ He]]]. simpl in He.
  exists recs. split; [apply (records_at_emits _ _ Hn He)|].
  apply (emits_shape He).
Qed.

(** C5. A line that matches the checkbox pattern is emitted with kind
    checkbox whatever the footer flag is when the loop reaches it, so
    also after a rule has set it; the flag is left as it was. *)
Theorem checkbox_ignores_footer_mode (md : str) (lines : list str)
    (j : nat) (raw : str) :
  split_lines md = Ok lines ->
  nth_error lines j = Some raw ->
  is_checkbox_line raw = true ->
  exists r,
    kind r = "checkbox"%string /\
    records_at lines j = Ok [r] /\
    in_footer_at lines (S j) = in_footer_at lines j /\
    forall out f, loop_body raw (out, f) = Ok (out ++ [r], f).
Proof.
  intros _ Hn Hc.
  destruct (checkbox_record _ Hc) as [r [Hk He]].
  exists r. repeat split; [exact Hk | apply (records_at_emits _ _ Hn (He _)) | |].
  - rewrite !in_footer_at_spec, (firstn_snoc _ _ Hn), existsb_app.
    destruct (checkbox_line_class _ Hc) as [_ [Ch _]].
    simpl. rewrite Ch, !orb_false_r. reflexivity.
  - intros out f. apply (loop_body_of_emits _ (He f)).
Qed.

(** C2, amended.  Take a line at position [i] that trims to three
    dashes.  Every later line that is not blank, not a rule, not a
    heading and not a checkbox line is emitted with kind footer; when
    no line before [i] trims to three dashes, no line before [i] is
    emitted with kind footer; from [i] on the footer flag is set at
    every later position; and every line that trims to three dashes
    emits its hr record. *)
Theorem footer_latch (md : str) (lines : list str) (i : nat) (l : str) :
  split_lines md = Ok lines ->
  nth_error lines i = Some l ->
  strip l = py "---" ->
  (forall j raw,
      i < j -> nth_error lines j = Some raw ->
      is_blank_line raw = false -> is_hr_line raw = false ->
      is_heading_line raw = false -> is_checkbox_line raw = false ->
      exists r, records_at lines j = Ok [r] /\ kind r = "footer"%string) /\
  ((forall k l', k < i -> nth_error lines k = Some l' -> strip l' <> py "---") ->
   forall j raw,
      j < i -> nth_error lines j = Some raw ->
      exists recs, records_at lines j = Ok recs /\
                   Forall (fun r => kind r <> "footer"%string) recs) /\
  (forall k, i < k -> in_footer_at lines k = Ok true) /\
  (forall k l',
      nth_error lines k = Some l' -> strip l' = py "---" ->
      records_at lines k = Ok [Paragraph_default "hr" []]).
Proof.
  intros _ Hi Hl. apply is_hr_line_strip in Hl. repeat split.
  - intros j raw Hij Hj Cb Ch Cd Cc.
    destruct (records_at_total _ _ Hj) as [recs [f' [He Hr]]].
    rewrite (@hr_before lines i j l Hi Hl Hij) in He.
    destruct (emits_footer_mode He Cb Ch Cd Cc) as [r [-> Hk]].
    exists r. auto.
  - intros Hfirst j raw Hji Hj.
    destruct (records_at_total _ _ Hj) as [recs [f' [He Hr]]].
    rewrite (@no_hr_before lines i j) in He; [| |lia].
    + exists recs. split; [exact Hr | apply (emits_no_footer He)].
    + intros k l' Hk Hn. destruct (is_hr_line l') eqn:E; [|reflexivity].
      apply is_hr_line_strip in E. destruct (Hfirst k l' Hk Hn E).
  - intros k Hik. rewrite in_footer_at_spec, (@hr_before lines i k l Hi Hl Hik).
    reflexivity.
  - intros k l' Hk Hl'. apply is_hr_line_strip in Hl'.
    destruct (records_at_total _ _ Hk) as [recs [f' [He Hr]]].
    destruct (emits_hr_line He Hl') as [-> _]. exact Hr.
Qed.

(** C9. A heading line after a rule is still emitted as h1, h2 or h3,
    the subtitle of an h1 line with kind text and never footer, and the
    footer flag, set when the loop reaches the heading, is still set at
    every position after it. *)
Theorem heading_after_rule (md : str) (lines : list str) (i j : nat)
    (l raw : str) :
  split_lines md = Ok lines ->
  nth_error lines i = Some l -> strip l = py "---" ->
  i < j -> nth_error lines j = Some raw ->
  is_heading_line raw = true ->
  in_footer_at lines j = Ok true /\
  (exists recs,
      records_at lines j = Ok recs /\
      Forall (fun r => kind r <> "footer"%string) recs /\
      (is_h1_line raw = true ->
         exists t, recs = [Paragraph_default "h1" t] \/
                   exists s, recs = [Paragraph_default "h1" t;
                                     Paragraph_default "text" s]) /\
      (is_h2_line raw = true ->
         recs = [Paragraph_default "h2" (strip (skipn 3 (rstrip raw)))]) /\
      (is_h3_line raw = true ->
         recs = [Paragraph_default "h3" (strip (skipn 4 (rstrip raw)))])) /\
  (forall k, j < k -> in_footer_at lines k = Ok true).
Proof.
  intros _ Hi Hl Hij Hj Hd. apply is_hr_line_strip in Hl.
  assert (F : forall k, i < k -> in_footer_at lines k = Ok true).
  { intros k Hik. rewrite in_footer_at_spec, (@hr_before lines i k l Hi Hl Hik).
    reflexivity. }
  split; [apply F; exact Hij|]. split; [|intros k Hk; apply F; lia].
  destruct (records_at_total _ _ Hj) as [recs [f' [He Hr]]].
  destruct (emits_heading He Hd) as [_ [E1 [E2 E3]]].
  exists recs. repeat split; auto.
  unfold is_heading_line in Hd.
  destruct (is_h1_line raw); [|destruct (is_h2_line raw); [|destruct (is_h3_line raw)]].
  - destruct (E1 eq_refl) as [t [->|[s ->]]]; repeat constructor; discriminate.
  - rewrite (E2 eq_refl). repeat constructor; discriminate.
  - rewrite (E3 eq_refl). repeat constructor; discriminate.
  - discriminate Hd.
Qed.

(** C7. [parse_markdown] is total: on every input it returns a list of
    records and raises nothing, every record has one of the eight
    kinds, no iteration of the loop raises, and a line that is not
    blank, not a rule, not a heading and matches neither the checkbox
    nor the bullet pattern takes the plain-text branch. *)
Theorem parse_markdown_total (md : str) :
  (exists out,
      parse_markdown md = Ok out /\
      Forall (fun r => In (kind r) kinds) out) /\
  (forall raw st, exists st', loop_body raw st = Ok st') /\
  (forall raw st,
      is_blank_line raw = true \/ is_hr_line raw = true \/
      is_heading_line raw = true \/ is_checkbox_line raw = true \/
      is_bullet_line raw = true \/
      loop_body raw st =
      Ok (append st
            (mkParagraph (if snd st then "footer" else "text")%string
               (strip (rstrip raw)) 0
               (_mention_spans (strip (rstrip raw)))))).
Proof.
  repeat split.
  - destruct (parse_markdown_runs md) as [lines [rs [f' [Hs [Hr Hp]]]]].
    exists (concat rs). split; [exact Hp|].
    apply Forall_concat. clear Hp Hs.
    induction Hr as [f|f raw recs g rest rs f' He Hr IH]; constructor.
    + apply (emits_kinds He).
    + exact IH.
  - intros raw st. destruct (loop_body_emits raw st) as [recs [f' [_ H]]].
    eexists; exact H.
  - intros raw [out f].
    destruct (is_blank_line raw) eqn:Cb; [auto|].
    destruct (is_hr_line raw) eqn:Ch; [auto|].
    destruct (is_heading_line raw) eqn:Cd; [auto|].
    destruct (is_checkbox_line raw) eqn:Cc; [auto|].
    destruct (is_bullet_line raw) eqn:Cu; [auto 6|].
    do 5 right. unfold is_checkbox_line, is_bullet_line in *.
    destruct (re_match CHECKBOX_RE (rstrip raw)) eqn:Ec; [discriminate|].
    destruct (re_match BULLET_RE (rstrip raw)) eqn:Eu; [discriminate|].
    apply (loop_body_of_emits out (emits_plain f raw Cb Ch Cd Ec Eu)).
Qed.

(** C4, amended.  The checkbox pattern requires whitespace after the
    box; whitespace between the dash and the box is optional.  A dash,
    a space, the box, a space and the words buy milk give a checkbox
    with text buy milk; a dash, a space and buy milk give a bullet with
    text buy milk; a dash, the box and buy milk with no space at all
    match neither the checkbox nor the bullet pattern and are plain
    text; a dash, the box, a space and buy milk are a checkbox.  A line
    made of whitespace, a dash, whitespace, the box and then a
    character that is not whitespace is never classified as checkbox. *)
Theorem checkbox_boundary :
  parse_markdown (py "- [ ] buy milk")
  = Ok [mkParagraph "checkbox" (py "buy milk") 0 []] /\
  parse_markdown (py "- buy milk")
  = Ok [mkParagraph "bullet" (py "buy milk") 0 []] /\
  (is_checkbox_line (py "-[ ]buy milk") = false /\
   is_bullet_line (py "-[ ]buy milk") = false /\
   parse_markdown (py "-[ ]buy milk")
   = Ok [mkParagraph "text" (py "-[ ]buy milk") 0 []]) /\
  parse_markdown (py "-[ ] buy milk")
  = Ok [mkParagraph "checkbox" (py "buy milk") 0 []] /\
  (forall indent w2 c rest,
      forallb is_space indent = true -> forallb is_space w2 = true ->
      is_space c = false ->
      let raw := indent ++ py "-" ++ w2 ++ py "[ ]" ++ c :: rest in
      is_checkbox_line raw = false /\
      forall out f, exists recs f',
        loop_body raw (out, f) = Ok (out ++ recs, f') /\
        Forall (fun r => kind r <> "checkbox"%string) recs).
Proof.
  split; [vm_compute; reflexivity|].
  split; [vm_compute; reflexivity|].
  split; [vm_compute; auto|].
  split; [vm_compute; reflexivity|].
  intros indent w2 c rest Hi Hw Hc raw.
  pose proof (no_space_after_box indent w2 c rest Hi Hw Hc) as Hn.
  split; [exact Hn|]. intros out f.
  destruct (loop_body_emits raw (out, f)) as [recs [f' [He Hl]]].
  exists recs, f'. split; [exact Hl|]. apply (emits_not_checkbox He Hn).
Qed.

(** C6, amended.  For every record of kind checkbox, bullet or footer,
    and every record of kind text other than the subtitle of an h1
    line, the mentions are exactly the maximal tokens made of an at
    sign and one or more word characters in the text of the record,
    from left to right without overlap; the records of kind h1, h2, h3
    and hr, and the subtitle record of an h1 line, have no mentions;
    every span of every record is a valid range of its text.  For the
    text ping, at alice, and, at bob_2 the spans are (5,11) and
    (16,22). *)
Theorem mentions_of_records (md : str) :
  (exists lines,
      split_lines md = Ok lines /\
      forall j raw recs r,
        nth_error lines j = Some raw -> records_at lines j = Ok recs ->
        In r recs ->
        (In (kind r) ["h1"; "h2"; "h3"; "hr"]%string -> mentions r = []) /\
        (In (kind r) ["checkbox"; "bullet"; "footer"]%string ->
           mentions r = _mention_spans (text r) /\
           mention_seq (text r) (mentions r)) /\
        (kind r = "text"%string ->
           if is_h1_line raw then mentions r = []
           else mention_seq (text r) (mentions r)) /\
        (forall a b, In (a, b) (mentions r) -> a < b /\ b <= length (text r))) /\
  _mention_spans (py "ping @alice and @bob_2") = [(5, 11); (16, 22)] /\
  parse_markdown (py "ping @alice and @bob_2")
  = Ok [mkParagraph "text" (py "ping @alice and @bob_2") 0 [(5, 11); (16, 22)]].
Proof.
  split; [|split; vm_compute; reflexivity].
  rewrite split_lines_total. eexists. split; [reflexivity|].
  intros j raw recs r Hn Hr Hin.
  destruct (records_at_total _ _ Hn) as [recs' [f' [He Hr']]].
  rewrite Hr in Hr'. injection Hr' as <-.
  apply (@emits_mentions _ _ _ _ r He Hin).
Qed.

(** ** Further properties of the parser *)

Lemma runs_Forall (P : Paragraph -> Prop) :
  (forall f raw recs f', emits f raw recs f' -> Forall P recs) ->
  forall f lines rs f', runs f lines rs f' -> Forall P (concat rs).
Proof.
  intros HP f lines rs f' Hr. apply Forall_concat.
  induction Hr as [f|f raw recs g rest rs f' He Hr IH]; constructor.
  - apply (HP _ _ _ _ He).
  - exact IH.
Qed.

Lemma strip_idem (s : str) : strip (strip s) = strip s.
Proof.
  unfold strip at 1. rewrite rstrip_strip. unfold strip. apply lstrip_idem.
Qed.

Lemma lstrip_length s : length (lstrip s) <= length s.
Proof.
  destruct (lstrip_decomp s) as [w [Hs _]].
  rewrite Hs at 2. rewrite length_app. lia.
Qed.

(** A trimmed text neither starts nor ends with whitespace. *)
Lemma strip_fix_head s c t :
  strip s = s -> s = c :: t -> is_space c = false.
Proof.
  intros Hs ->. destruct (is_space c) eqn:E; [|reflexivity]. exfalso.
  unfold strip in Hs. rewrite rstrip_cons in Hs.
  destruct (rstrip t) eqn:R; [rewrite E in Hs; discriminate Hs|].
  rewrite <- R in Hs.
  change (lstrip (c :: rstrip t))
    with (if is_space c then lstrip (rstrip t) else c :: rstrip t) in Hs.
  rewrite E in Hs. apply (f_equal (@length _)) in Hs.
  pose proof (lstrip_length (rstrip t)). pose proof (rstrip_length t).
  simpl in Hs. lia.
Qed.

Lemma strip_fix_last s t c :
  strip s = s -> s = t ++ [c] -> is_space c = false.
Proof.
  intros Hs ->. destruct (is_space c) eqn:E; [|reflexivity]. exfalso.
  pose proof (rstrip_strip (t ++ [c])) as R. rewrite Hs in R.
  rewrite rstrip_app_space in R by (simpl; rewrite E; reflexivity).
  pose proof (rstrip_length t) as L. rewrite R, length_app in L.
  simpl in L. lia.
Qed.

Lemma emits_trimmed f raw recs f' :
  emits f raw recs f' -> Forall (fun r => strip (text r) = text r) recs.
Proof.
  intros H. emits_cases H; repeat apply Forall_cons; try apply Forall_nil;
    cbn [text Paragraph_default]; first [apply strip_idem | reflexivity].
Qed.

(** X1. The text of every record is trimmed: trimming it again changes
    nothing, and it neither starts nor ends with a whitespace
    character. *)
Theorem record_text_trimmed (md : str) :
  exists out,
    parse_markdown md = Ok out /\
    Forall (fun r =>
              strip (text r) = text r /\
              (forall c t, text r = c :: t -> is_space c = false) /\
              (forall t c, text r = t ++ [c] -> is_space c = false)) out.
Proof.
  destruct (parse_markdown_runs md) as [lines [rs [f' [_ [Hr Hp]]]]].
  exists (concat rs). split; [exact Hp|].
  pose proof (@runs_Forall _ emits_trimmed _ _ _ _ Hr) as F.
  apply Forall_forall. intros r Hin. rewrite Forall_forall in F.
  specialize (F r Hin). split; [exact F|]. split.
  - intros c t. apply strip_fix_head; exact F.
  - intros t c. apply strip_fix_last; exact F.
Qed.

(** A line without trailing whitespace has no suffix made of whitespace
    only. *)
Lemma rstripped_suffix line a w :
  rstrip line = line -> line = a ++ w -> w <> [] ->
  forallb is_space w = false.
Proof.
  intros Hr -> Hw. destruct (forallb is_space w) eqn:E; [|reflexivity].
  exfalso. rewrite (rstrip_app_space a w E) in Hr.
  pose proof (rstrip_length a) as L. rewrite Hr, length_app in L.
  destruct w; [contradiction | simpl in L; lia].
Qed.

(** What follows a heading prefix is not blank. *)
Lemma heading_text_nonempty raw p n :
  startswith (rstrip raw) (p ++ [32%N]) = true -> n = S (length p) ->
  strip (skipn n (rstrip raw)) <> [].
Proof.
  intros H -> E. apply startswith_app in H. destruct H as [t Ht].
  rewrite <- app_assoc in Ht. rewrite Ht in E.
  replace (S (length p)) with (length (p ++ [32%N])) in E
    by (rewrite length_app; simpl; lia).
  rewrite app_assoc, skipn_app, skipn_all, Nat.sub_diag in E. simpl in E.
  apply strip_nil in E.
  assert (F := @rstripped_suffix (rstrip raw) p (32%N :: t) (rstrip_idem raw) Ht
                 ltac:(discriminate)).
  simpl in F. congruence.
Qed.

(** The title of an h1 line is not blank. *)
Lemma h1_main_nonempty raw main sep rest :
  is_h1_line raw = true ->
  partition_from (py " - ") (h1_content raw) [] = (main, sep, rest) ->
  strip main <> [].
Proof.
  intros H1 P E.
  assert (Hc : h1_content raw <> []).
  { apply (@heading_text_nonempty raw [35%N] 2 H1 eq_refl). }
  assert (Hs : strip (h1_content raw) = h1_content raw) by apply strip_idem.
  assert (S := @partition_from_spec (py " - ") (h1_content raw) []
                 ltac:(discriminate)).
  destruct (str_contains (h1_content raw) (py " - ")).
  - destruct S as [a [b [Ht S]]]. rewrite P in S. injection S as -> _ _.
    apply strip_nil in E. destruct a as [|c a].
    + pose proof (strip_fix_head Hs Ht). discriminate.
    + pose proof (strip_fix_head Hs Ht) as F. simpl in E.
      rewrite F in E. discriminate.
  - rewrite P in S. injection S as -> _ _. simpl in E. congruence.
Qed.

Lemma checkbox_text_nonempty line g0 g1 g2 :
  rstrip line = line ->
  re_match CHECKBOX_RE line = Some [g0; g1; g2] -> strip g2 <> [].
Proof.
  intros Hr Hm E. apply strip_nil in E.
  apply re_match_in in Hm. destruct Hm as [g0' [gs [r [Hg Hin]]]].
  injection Hg as _ Hg. subst gs.
  apply in_CHECKBOX_RE in Hin.
  destruct Hin as [h1 [w2 [w3 [h2 [Hgs [Hl [_ [_ [Hw3 [Hne [_ Hrr]]]]]]]]]]].
  injection Hgs as <- <-.
  assert (F := @rstripped_suffix line (g1 ++ py "-" ++ w2 ++ py "[ ]")
                 (w3 ++ g2 ++ r) Hr).
  rewrite <- !app_assoc in F. specialize (F Hl).
  rewrite !forallb_app, Hw3, E in F.
  assert (N : w3 ++ g2 ++ r <> []) by (destruct w3; [contradiction|discriminate]).
  specialize (F N). destruct Hrr as [-> | ->]; discriminate F.
Qed.

Lemma bullet_text_nonempty line g0 g1 g2 g3 :
  rstrip line = line ->
  re_match BULLET_RE line = Some [g0; g1; g2; g3] -> strip g3 <> [].
Proof.
  intros Hr Hm E. apply strip_nil in E.
  apply re_match_in in Hm. destruct Hm as [g0' [gs [r [Hg Hin]]]].
  injection Hg as _ Hg. subst gs.
  apply in_BULLET_RE in Hin.
  destruct Hin as [h1 [c [w [h3 [Hgs [Hl [_ [_ [Hw [Hne [_ Hrr]]]]]]]]]]].
  injection Hgs as <- _ <-.
  assert (F := @rstripped_suffix line (g1 ++ [c]) (w ++ g3 ++ r) Hr).
  rewrite <- !app_assoc in F. specialize (F Hl).
  rewrite !forallb_app, Hw, E in F.
  assert (N : w ++ g3 ++ r <> []) by (destruct w; [contradiction|discriminate]).
  specialize (F N). destruct Hrr as [-> | ->]; discriminate F.
Qed.

Lemma emits_nonempty f raw recs f' :
  emits f raw recs f' ->
  Forall (fun r => text r = [] ->
                   r = Paragraph_default "text" [] \/
                   r = Paragraph_default "hr" []) recs.
Proof.
  intros H. emits_cases H; repeat apply Forall_cons; try apply Forall_nil;
    cbn [text Paragraph_default]; auto; intros E; exfalso.
  - apply (h1_main_nonempty _ H1 P E).
  - apply (h1_main_nonempty _ H1 P E).
  - apply (R E).
  - apply (@heading_text_nonempty raw [35%N; 35%N] 3 H2 eq_refl E).
  - apply (@heading_text_nonempty raw [35%N; 35%N; 35%N] 4 H3 eq_refl E).
  - apply (checkbox_text_nonempty (rstrip_idem raw) Hc E).
  - apply (bullet_text_nonempty (rstrip_idem raw) Hbu E).
  - unfold is_blank_line in Hb. apply str_eqb_neq in Hb. auto.
Qed.


Lemma run_app_stop cls (a : str) x t :
  forallb cls a = true -> cls x = false -> run cls (a ++ x :: t) = length a.
Proof.
  intros Ha Hx. induction a as [|c a IH]; simpl.
  - rewrite Hx. reflexivity.
  - simpl in Ha. apply andb_true_iff in Ha. destruct Ha as [Hc Ha].
    rewrite Hc, (IH Ha). reflexivity.
Qed.

(** The leading whitespace of a line, read on the line without its
    trailing whitespace. *)
Lemma leading_run raw a x t :
  rstrip raw = a ++ x :: t -> forallb is_space a = true ->
  is_space x = false -> length a = run is_space raw.
Proof.
  intros Hl Ha Hx. destruct (rstrip_decomp raw) as [w [Hr _]].
  rewrite Hr, Hl, <- app_assoc. simpl.
  symmetry. apply run_app_stop; assumption.
Qed.

Lemma checkbox_indent raw g0 g1 g2 :
  re_match CHECKBOX_RE (rstrip raw) = Some [g0; g1; g2] ->
  length g1 = run is_space raw.
Proof.
  intros Hm. apply re_match_in in Hm. destruct Hm as [g0' [gs [r [Hg Hin]]]].
  injection Hg as _ Hg. subst gs. apply in_CHECKBOX_RE in Hin.
  destruct Hin as [h1 [w2 [w3 [h2 [Hgs [Hl [Hg1 _]]]]]]].
  injection Hgs as <- <-.
  apply (@leading_run raw g1 45%N _ Hl Hg1 eq_refl).
Qed.

Lemma bullet_indent raw g0 g1 g2 g3 :
  re_match BULLET_RE (rstrip raw) = Some [g0; g1; g2; g3] ->
  length g1 = run is_space raw.
Proof.
  intros Hm. apply re_match_in in Hm. destruct Hm as [g0' [gs [r [Hg Hin]]]].
  injection Hg as _ Hg. subst gs. apply in_BULLET_RE in Hin.
  destruct Hin as [h1 [c [w [h3 [Hgs [Hl [Hg1 [Hc _]]]]]]]].
  injection Hgs as <- _ <-.
  apply (@leading_run raw g1 c _ Hl Hg1).
  destruct Hc as [-> | ->]; reflexivity.
Qed.

Lemma emits_level f raw recs f' r :
  emits f raw recs f' -> In r recs ->
  (kind r = "checkbox"%string \/ kind r = "bullet"%string ->
     level r = run is_space raw / 2) /\
  (kind r = "footer"%string ->
     level r = if is_bullet_line raw then run is_space raw / 2 else 0) /\
  (In (kind r) ["text"; "h1"; "h2"; "h3"; "hr"]%string -> level r = 0).
Proof.
  intros H Hin.
  emits_cases H; simpl in Hin;
    repeat (destruct Hin as [<-|Hin]; [|try contradiction]);
    cbn [kind level Paragraph_default];
    try (split; [intros [E|E]; discriminate E
                |split; [intros E; discriminate E | reflexivity]]).
  - rewrite (checkbox_indent _ Hc). split; [reflexivity|].
    split; [intros E; discriminate E | simpl; intuition discriminate].
  - rewrite (bullet_indent _ Hbu). unfold is_bullet_line. rewrite Hbu.
    destruct f.
    + split; [intros [E|E]; discriminate E|].
      split; [reflexivity | simpl; intuition discriminate].
    + split; [reflexivity|].
      split; [intros E; discriminate E | simpl; intuition discriminate].
  - unfold is_bullet_line. rewrite Hbu. destruct f.
    + split; [intros [E|E]; discriminate E|]. split; reflexivity.
    + split; [intros [E|E]; discriminate E|]. split; [intros E; discriminate E|].
      reflexivity.
Qed.

(** X3. The level of a checkbox or bullet record is half the number of
    whitespace characters at the start of its line, rounded down, each
    whitespace character, a tab too, counting for one; a footer record
    has that level when its line has the bullet form and level 0
    otherwise; every other record has level 0. *)
Theorem level_of_records (md : str) :
  exists lines,
    split_lines md = Ok lines /\
    forall j raw recs r,
      nth_error lines j = Some raw -> records_at lines j = Ok recs ->
      In r recs ->
      (kind r = "checkbox"%string \/ kind r = "bullet"%string ->
         level r = run is_space raw / 2) /\
      (kind r = "footer"%string ->
         level r = if is_bullet_line raw then run is_space raw / 2 else 0) /\
      (In (kind r) ["text"; "h1"; "h2"; "h3"; "hr"]%string -> level r = 0).
Proof.
  rewrite split_lines_total. eexists. split; [reflexivity|].
  intros j raw recs r Hn Hr Hin.
  destruct (records_at_total _ _ Hn) as [recs' [f' [He Hr']]].
  rewrite Hr in Hr'. injection Hr' as <-.
  apply (@emits_level _ _ _ _ r He Hin).
Qed.

Lemma emits_heading_prefix f raw recs f' r :
  emits f raw recs f' -> In r recs ->
  (kind r = "h1"%string -> startswith raw (py "# ") = true) /\
  (kind r = "h2"%string -> startswith raw (py "## ") = true) /\
  (kind r = "h3"%string -> startswith raw (py "### ") = true).
Proof.
  intros H Hin.
  emits_cases H; simpl in Hin;
    repeat (destruct Hin as [<-|Hin]; [|try contradiction]);
    cbn [kind Paragraph_default]; try destruct f;
    repeat split; try discriminate; intros _;
    apply startswith_rstrip; assumption.
Qed.

(** X4. A heading record comes only from a line that has the heading
    prefix at its very start: a hash and a space for h1, two hashes and
    a space for h2, three hashes and a space for h3.  So a line that
    starts with whitespace, or with four hashes, gives no heading. *)
Theorem heading_needs_prefix (md : str) :
  exists lines,
    split_lines md = Ok lines /\
    forall j raw recs r,
      nth_error lines j = Some raw -> records_at lines j = Ok recs ->
      In r recs ->
      (kind r = "h1"%string -> startswith raw (py "# ") = true) /\
      (kind r = "h2"%string -> startswith raw (py "## ") = true) /\
      (kind r = "h3"%string -> startswith raw (py "### ") = true).
Proof.
  rewrite split_lines_total. eexists. split; [reflexivity|].
  intros j raw recs r Hn Hr Hin.
  destruct (records_at_total _ _ Hn) as [recs' [f' [He Hr']]].
  rewrite Hr in Hr'. injection Hr' as <-.
  apply (@emits_heading_prefix _ _ _ _ r He Hin).
Qed.

(** Every record of the output is a record of one of the lines. *)
Lemma runs_In f lines rs f' r :
  runs f lines rs f' -> In r (concat rs) ->
  exists raw g recs g', In raw lines /\ emits g raw recs g' /\ In r recs.
Proof.
  intros Hr; induction Hr as [f|f raw recs g rest rs f' He Hr IH];
    simpl; [intros []|].
  rewrite in_app_iff. intros [H|H].
  - exists raw, f, recs, g. auto.
  - destruct (IH H) as [raw' [g1 [recs' [g2 [H1 [H2 H3]]]]]].
    exists raw', g1, recs', g2. auto.
Qed.

Lemma replace_from_1 a b c t :
  replace_from [a] [b] (c :: t) 0 =
  if (a =? c)%N then b :: replace_from [a] [b] t 0
  else c :: replace_from [a] [b] t 0.
Proof.
  cbn [replace_from startswith length Nat.sub app]. rewrite andb_true_r.
  destruct (a =? c)%N; reflexivity.
Qed.

Lemma split_from_1 a c t cur :
  split_from [a] (c :: t) cur 0 =
  if (a =? c)%N then rev cur :: split_from [a] t [] 0
  else split_from [a] t (c :: cur) 0.
Proof.
  cbn [split_from startswith length Nat.sub]. rewrite andb_true_r.
  destruct (a =? c)%N; reflexivity.
Qed.

Lemma replace_cr_no_cr s : ~ In CR (replace_from [CR] [LF] s 0).
Proof.
  induction s as [|c t IH]; [intros []|].
  rewrite replace_from_1. destruct (CR =? c)%N eqn:E.
  - intros [H|H]; [discriminate H | exact (IH H)].
  - intros [H|H]; [|exact (IH H)].
    subst c. rewrite N.eqb_refl in E. discriminate.
Qed.

(** The pieces of a split at line feeds hold no line feed, and nothing
    that was not in the text. *)
Lemma split_lf_chars s cur piece c :
  In piece (split_from [LF] s cur 0) -> In c piece ->
  (In c cur \/ In c s) /\ (c = LF -> In c cur).
Proof.
  revert cur; induction s as [|d t IH]; intros cur.
  - intros [<-|[]] Hc. apply in_rev in Hc. auto.
  - rewrite split_from_1. destruct (LF =? d)%N eqn:E.
    + intros [<-|H] Hc.
      * apply in_rev in Hc. auto.
      * destruct (IH [] H Hc) as [[[]|H1] H2].
        split; [right; right; exact H1|]. intros El. destruct (H2 El).
    + intros H Hc. destruct (IH (d :: cur) H Hc) as [H1 H2]. split.
      * destruct H1 as [[->|H1]|H1]; [right; left; reflexivity|auto|right; right; exact H1].
      * intros El. destruct (H2 El) as [->|H3]; [|exact H3].
        subst c. rewrite N.eqb_refl in E. discriminate.
Qed.

(** No line holds a line feed or a carriage return. *)
Lemma lines_no_breaks md lines l :
  split_lines md = Ok lines -> In l lines -> ~ In LF l /\ ~ In CR l.
Proof.
  rewrite split_lines_total. intros E Hl. injection E as <-.
  split; intros Hc.
  - destruct (@split_lf_chars _ _ _ _ Hl Hc) as [_ H]. destruct (H eq_refl).
  - destruct (@split_lf_chars _ _ _ _ Hl Hc) as [[[]|H] _].
    apply (@replace_cr_no_cr _ H).
Qed.

Lemma In_lstrip c s : In c (lstrip s) -> In c s.
Proof.
  destruct (lstrip_decomp s) as [w [Hs _]]. intros H.
  rewrite Hs. apply in_or_app. auto.
Qed.

Lemma In_rstrip c s : In c (rstrip s) -> In c s.
Proof.
  destruct (rstrip_decomp s) as [w [Hs _]]. intros H.
  rewrite Hs. apply in_or_app. auto.
Qed.

Lemma In_strip_inv c s : In c (strip s) -> In c s.
Proof. intros H. apply In_rstrip, In_lstrip, H. Qed.

Lemma In_skipn_inv (c : N) n s : In c (skipn n s) -> In c s.
Proof.
  intros H. rewrite <- (firstn_skipn n s). apply in_or_app. auto.
Qed.

Lemma partition_parts s main sep rest c :
  partition_from (py " - ") s [] = (main, sep, rest) ->
  In c main \/ In c rest -> In c s.
Proof.
  intros P H.
  assert (S := @partition_from_spec (py " - ") s [] ltac:(discriminate)).
  destruct (str_contains s (py " - ")).
  - destruct S as [a [b [-> S]]]. rewrite P in S. injection S as -> _ ->.
    rewrite !in_app_iff. tauto.
  - rewrite P in S. injection S as -> _ ->. simpl in H. tauto.
Qed.

Lemma checkbox_group_chars line g0 g1 g2 c :
  re_match CHECKBOX_RE line = Some [g0; g1; g2] -> In c g2 -> In c line.
Proof.
  intros Hm Hc. apply re_match_in in Hm.
  destruct Hm as [g0' [gs [r [Hg Hin]]]].
  injection Hg as _ Hg. subst gs. apply in_CHECKBOX_RE in Hin.
  destruct Hin as [h1 [w2 [w3 [h2 [Hgs [Hl _]]]]]].
  injection Hgs as <- <-. rewrite Hl, !in_app_iff. tauto.
Qed.

Lemma bullet_group_chars line g0 g1 g2 g3 c :
  re_match BULLET_RE line = Some [g0; g1; g2; g3] -> In c g3 -> In c line.
Proof.
  intros Hm Hc. apply re_match_in in Hm.
  destruct Hm as [g0' [gs [r [Hg Hin]]]].
  injection Hg as _ Hg. subst gs. apply in_BULLET_RE in Hin.
  destruct Hin as [h1 [x [w [h3 [Hgs [Hl _]]]]]].
  injection Hgs as <- _ <-. rewrite Hl.
  apply in_or_app. right. right. rewrite !in_app_iff. tauto.
Qed.

(** The text of a record is made of characters of its line. *)
Lemma emits_text_chars f raw recs f' r c :
  emits f raw recs f' -> In r recs -> In c (text r) -> In c raw.
Proof.
  intros H Hin.
  emits_cases H; simpl in Hin;
    repeat (destruct Hin as [<-|Hin]; [|try contradiction]);
    cbn [text Paragraph_default]; try (intros []; fail); intros Hx;
    apply In_strip_inv in Hx; apply In_rstrip.
  - apply (@In_skipn_inv c 2), In_strip_inv.
    apply (@partition_parts _ _ _ _ c P). auto.
  - apply (@In_skipn_inv c 2), In_strip_inv.
    apply (@partition_parts _ _ _ _ c P). auto.
  - apply (@In_skipn_inv c 2), In_strip_inv.
    apply (@partition_parts _ _ _ _ c P). auto.
  - apply (@In_skipn_inv c 3), Hx.
  - apply (@In_skipn_inv c 4), Hx.
  - apply (@checkbox_group_chars _ _ _ _ c Hc Hx).
  - apply (@bullet_group_chars _ _ _ _ _ c Hbu Hx).
  - exact Hx.
Qed.

(** X5. No line the loop reads holds a line feed or a carriage return,
    and the text of a record is made of characters of its line: so no
    record text holds a line break of either kind. *)
Theorem no_line_break_in_text (md : str) :
  exists lines out,
    split_lines md = Ok lines /\ parse_markdown md = Ok out /\
    (forall l, In l lines -> ~ In LF l /\ ~ In CR l) /\
    (forall r, In r out -> ~ In LF (text r) /\ ~ In CR (text r)).
Proof.
  destruct (parse_markdown_runs md) as [lines [rs [f' [Hs [Hr Hp]]]]].
  exists lines, (concat rs).
  split; [exact Hs|]. split; [exact Hp|]. split.
  - intros l Hl. apply (@lines_no_breaks md lines l Hs Hl).
  - intros r Hin.
    destruct (@runs_In _ _ _ _ r Hr Hin) as [raw [g [recs [g' [H1 [H2 H3]]]]]].
    destruct (@lines_no_breaks md lines raw Hs H1) as [N1 N2].
    split; intros Hc.
    + apply N1. apply (@emits_text_chars _ _ _ _ r LF H2 H3 Hc).
    + apply N2. apply (@emits_text_chars _ _ _ _ r CR H2 H3 Hc).
Qed.

(** ** Line endings *)

Lemma join_cons sep l l' ls :
  join sep (l :: l' :: ls) = l ++ sep ++ join sep (l' :: ls).
Proof. reflexivity. Qed.

Lemma replace_crlf_step c t :
  replace_from [CR; LF] [LF] (c :: t) 0 =
  if startswith (c :: t) [CR; LF]
  then LF :: replace_from [CR; LF] [LF] t 1
  else c :: replace_from [CR; LF] [LF] t 0.
Proof. reflexivity. Qed.

Lemma startswith_other a p c t :
  c <> a -> startswith (c :: t) (a :: p) = false.
Proof.
  intros H. cbn [startswith]. destruct (a =? c)%N eqn:E; [|reflexivity].
  apply N.eqb_eq in E. congruence.
Qed.

(** A stretch without carriage return passes through both replacements
    unchanged. *)
Lemma replace_crlf_free l rest :
  ~ In CR l ->
  replace_from [CR; LF] [LF] (l ++ rest) 0 =
  l ++ replace_from [CR; LF] [LF] rest 0.
Proof.
  induction l as [|c l IH]; intros H; [reflexivity|].
  cbn [app]. rewrite replace_crlf_step, startswith_other.
  - f_equal. apply IH. intros Hc. apply H. right; exact Hc.
  - intros E. apply H. left; exact E.
Qed.

Lemma replace_cr_free l rest :
  ~ In CR l ->
  replace_from [CR] [LF] (l ++ rest) 0 = l ++ replace_from [CR] [LF] rest 0.
Proof.
  induction l as [|c l IH]; intros H; [reflexivity|].
  cbn [app]. rewrite replace_from_1.
  destruct (CR =? c)%N eqn:E.
  - apply N.eqb_eq in E. exfalso. apply H. left; symmetry; exact E.
  - f_equal. apply IH. intros Hc. apply H. right; exact Hc.
Qed.

Lemma replace_crlf_at rest :
  replace_from [CR; LF] [LF] (CR :: LF :: rest) 0 =
  LF :: replace_from [CR; LF] [LF] rest 0.
Proof. reflexivity. Qed.

Lemma replace_crlf_lone_cr rest :
  (forall t, rest <> LF :: t) ->
  replace_from [CR; LF] [LF] (CR :: rest) 0 =
  CR :: replace_from [CR; LF] [LF] rest 0.
Proof.
  intros H. rewrite replace_crlf_step. cbn [startswith].
  destruct rest as [|d t]; [reflexivity|].
  destruct (LF =? d)%N eqn:E; [|rewrite andb_false_r; reflexivity].
  apply N.eqb_eq in E. subst d. destruct (H t eq_refl).
Qed.

Lemma split_lf_free l rest cur :
  ~ In LF l ->
  split_from [LF] (l ++ rest) cur 0 = split_from [LF] rest (rev l ++ cur) 0.
Proof.
  revert cur; induction l as [|c l IH]; intros cur H; [reflexivity|].
  cbn [app]. rewrite split_from_1.
  destruct (LF =? c)%N eqn:E.
  - apply N.eqb_eq in E. exfalso. apply H. left; symmetry; exact E.
  - rewrite IH by (intros Hc; apply H; right; exact Hc).
    simpl rev. rewrite <- app_assoc. reflexivity.
Qed.

Lemma clean_tail (l : str) ls :
  (forall x, In x (l :: ls) -> ~ In LF x /\ ~ In CR x) ->
  (~ In LF l /\ ~ In CR l) /\ forall x, In x ls -> ~ In LF x /\ ~ In CR x.
Proof.
  intros H. split; [apply H; left; reflexivity|].
  intros x Hx; apply H; right; exact Hx.
Qed.

Lemma split_join_lf lines :
  lines <> [] -> (forall l, In l lines -> ~ In LF l /\ ~ In CR l) ->
  split_from [LF] (join [LF] lines) [] 0 = lines.
Proof.
  induction lines as [|l ls IH]; [contradiction|]. intros _ H.
  destruct (clean_tail H) as [[Hl _] Hls]. destruct ls as [|l' ls].
  - simpl join. rewrite <- (app_nil_r l) at 1. rewrite split_lf_free by exact Hl.
    simpl. rewrite app_nil_r, rev_involutive. reflexivity.
  - rewrite join_cons, split_lf_free by exact Hl. cbn [app].
    rewrite split_from_1, N.eqb_refl, app_nil_r, rev_involutive.
    f_equal. apply IH; [discriminate | exact Hls].
Qed.

Lemma replace_crlf_join_crlf lines :
  (forall l, In l lines -> ~ In LF l /\ ~ In CR l) ->
  replace_from [CR; LF] [LF] (join [CR; LF] lines) 0 = join [LF] lines.
Proof.
  induction lines as [|l ls IH]; [reflexivity|]. intros H.
  destruct (clean_tail H) as [[_ Hl] Hls]. destruct ls as [|l' ls].
  - simpl join. rewrite <- (app_nil_r l) at 1.
    rewrite replace_crlf_free by exact Hl. simpl. apply app_nil_r.
  - rewrite !join_cons, replace_crlf_free by exact Hl. cbn [app].
    rewrite replace_crlf_at, (IH Hls). reflexivity.
Qed.

Lemma join_cr_head lines t :
  (forall l, In l lines -> ~ In LF l /\ ~ In CR l) ->
  join [CR] lines <> LF :: t.
Proof.
  intros H. destruct lines as [|l ls]; [discriminate|].
  destruct (clean_tail H) as [[Hl _] _].
  destruct ls as [|l' ls].
  - simpl. intros E. apply Hl. rewrite E. left; reflexivity.
  - rewrite join_cons. destruct l as [|c l]; cbn [app].
    + discriminate.
    + intros E. injection E as -> _. apply Hl. left; reflexivity.
Qed.

Lemma replace_crlf_join_cr lines :
  (forall l, In l lines -> ~ In LF l /\ ~ In CR l) ->
  replace_from [CR; LF] [LF] (join [CR] lines) 0 = join [CR] lines.
Proof.
  induction lines as [|l ls IH]; [reflexivity|]. intros H.
  destruct (clean_tail H) as [[_ Hl] Hls]. destruct ls as [|l' ls].
  - simpl join. rewrite <- (app_nil_r l) at 1.
    rewrite replace_crlf_free by exact Hl. simpl. apply app_nil_r.
  - rewrite !join_cons, replace_crlf_free by exact Hl. cbn [app].
    rewrite replace_crlf_lone_cr, (IH Hls); [reflexivity|].
    intros t. apply join_cr_head; exact Hls.
Qed.

Lemma replace_cr_join_cr lines :
  (forall l, In l lines -> ~ In LF l /\ ~ In CR l) ->
  replace_from [CR] [LF] (join [CR] lines) 0 = join [LF] lines.
Proof.
  induction lines as [|l ls IH]; [reflexivity|]. intros H.
  destruct (clean_tail H) as [[_ Hl] Hls]. destruct ls as [|l' ls].
  - simpl join. rewrite <- (app_nil_r l) at 1.
    rewrite replace_cr_free by exact Hl. simpl. apply app_nil_r.
  - rewrite !join_cons, replace_cr_free by exact Hl. cbn [app].
    rewrite replace_from_1, N.eqb_refl, (IH Hls). reflexivity.
Qed.

Lemma join_lf_no_cr lines :
  (forall l, In l lines -> ~ In LF l /\ ~ In CR l) ->
  ~ In CR (join [LF] lines).
Proof.
  induction lines as [|l ls IH]; [intros _ []|]. intros H.
  destruct (clean_tail H) as [[_ Hl] Hls]. destruct ls as [|l' ls]; [exact Hl|].
  rewrite join_cons, !in_app_iff. intros [Hc|[Hc|Hc]].
  - exact (Hl Hc).
  - destruct Hc as [E|[]]. discriminate E.
  - exact (IH Hls Hc).
Qed.

Lemma replace_crlf_id s : ~ In CR s -> replace_from [CR; LF] [LF] s 0 = s.
Proof.
  intros H. rewrite <- (app_nil_r s) at 1. rewrite replace_crlf_free by exact H.
  simpl. apply app_nil_r.
Qed.

Lemma replace_cr_id s : ~ In CR s -> replace_from [CR] [LF] s 0 = s.
Proof.
  intros H. rewrite <- (app_nil_r s) at 1. rewrite replace_cr_free by exact H.
  simpl. apply app_nil_r.
Qed.

(** X6. The three line-ending conventions give the same lines: for a
    non-empty list of lines that hold no line feed and no carriage
    return, joined with LF, with CR LF or with CR, the parser reads
    back exactly these lines, and so parses the three texts to the same
    records. *)
Theorem line_endings_agree (lines : list str) :
  lines <> [] ->
  (forall l, In l lines -> ~ In LF l /\ ~ In CR l) ->
  split_lines (join [LF] lines) = Ok lines /\
  split_lines (join [CR; LF] lines) = Ok lines /\
  split_lines (join [CR] lines) = Ok lines /\
  parse_markdown (join [CR; LF] lines) = parse_markdown (join [LF] lines) /\
  parse_markdown (join [CR] lines) = parse_markdown (join [LF] lines).
Proof.
  intros Hne H.
  assert (E1 : split_lines (join [LF] lines) = Ok lines).
  { rewrite split_lines_total. unfold str_replace.
    rewrite (@replace_crlf_id _ (@join_lf_no_cr lines H)),
            (@replace_cr_id _ (@join_lf_no_cr lines H)), (@split_join_lf lines Hne H).
    reflexivity. }
  assert (E2 : split_lines (join [CR; LF] lines) = Ok lines).
  { rewrite split_lines_total. unfold str_replace.
    rewrite (@replace_crlf_join_crlf lines H),
            (@replace_cr_id _ (@join_lf_no_cr lines H)), (@split_join_lf lines Hne H).
    reflexivity. }
  assert (E3 : split_lines (join [CR] lines) = Ok lines).
  { rewrite split_lines_total. unfold str_replace.
    rewrite (@replace_crlf_join_cr lines H), (@replace_cr_join_cr lines H),
            (@split_join_lf lines Hne H).
    reflexivity. }
  repeat split; auto; unfold parse_markdown; rewrite ?E1, ?E2, ?E3; reflexivity.
Qed.

(** ** The latch, read on the output *)

Lemma app_split_at A (xs ys a b : list A) r :
  xs ++ ys = a ++ r :: b ->
  (exists b', xs = a ++ r :: b' /\ b = b' ++ ys) \/
  (exists a', a = xs ++ a' /\ ys = a' ++ r :: b).
Proof.
  revert a; induction xs as [|x xs IH]; intros a E.
  - right. exists a. auto.
  - destruct a as [|y a]; simpl in E; injection E as -> E.
    + left. exists xs. split; [reflexivity | symmetry; exact E].
    + destruct (IH _ E) as [[b' [-> ->]]|[a' [-> ->]]].
      * left. exists b'. auto.
      * right. exists a'. auto.
Qed.

Lemma emits_hr_record f raw recs f' r :
  emits f raw recs f' -> In r recs -> kind r = "hr"%string ->
  recs = [r] /\ f' = true.
Proof.
  intros H Hin.
  emits_cases H; simpl in Hin;
    repeat (destruct Hin as [<-|Hin]; [|try contradiction]);
    cbn [kind Paragraph_default]; try destruct f; try discriminate; auto.
Qed.

Lemma emits_footer_flag f raw recs f' r :
  emits f raw recs f' -> In r recs -> kind r = "footer"%string -> f = true.
Proof.
  intros H Hin Hk. destruct f; [reflexivity|].
  pose proof (emits_no_footer H) as F. rewrite Forall_forall in F.
  destruct (F r Hin Hk).
Qed.

Lemma emits_true_no_bullet raw recs f' :
  emits true raw recs f' ->
  Forall (fun r => kind r <> "bullet"%string) recs /\ f' = true.
Proof.
  intros H. split; [|rewrite (emits_flag H); reflexivity].
  emits_cases H; repeat apply Forall_cons; try apply Forall_nil;
    cbn [kind Paragraph_default]; discriminate.
Qed.

Lemma runs_true_no_bullet lines rs f' :
  runs true lines rs f' ->
  Forall (fun r => kind r <> "bullet"%string) (concat rs).
Proof.
  intros H. remember true as f eqn:Ef.
  induction H as [f|f raw recs g rest rs f' He Hr IH]; [constructor|].
  subst f. destruct (emits_true_no_bullet He) as [F ->].
  simpl. apply Forall_app. split; [exact F | apply IH; reflexivity].
Qed.

Lemma runs_after_hr f lines rs f' a r b :
  runs f lines rs f' -> concat rs = a ++ r :: b -> kind r = "hr"%string ->
  Forall (fun x => kind x <> "bullet"%string) b.
Proof.
  intros H; revert a b;
    induction H as [f|f raw recs g rest rs f' He Hr IH]; intros a b E Hk.
  - destruct a; discriminate E.
  - simpl in E. apply app_split_at in E.
    destruct E as [[b' [E ->]]|[a' [-> E]]].
    + assert (Hin : In r recs) by (rewrite E; apply in_elt).
      destruct (@emits_hr_record _ _ _ _ r He Hin Hk) as [E' ->].
      rewrite E' in E. destruct a as [|y a].
      * injection E as <-. simpl. apply (runs_true_no_bullet Hr).
      * injection E as _ E. destruct a; discriminate E.
    + apply (IH _ _ E Hk).
Qed.

Lemma runs_footer_after_hr f lines rs f' a r b :
  runs f lines rs f' -> concat rs = a ++ r :: b -> kind r = "footer"%string ->
  f = true \/ exists h, In h a /\ kind h = "hr"%string.
Proof.
  intros H; revert a b;
    induction H as [f|f raw recs g rest rs f' He Hr IH]; intros a b E Hk.
  - destruct a; discriminate E.
  - simpl in E. apply app_split_at in E.
    destruct E as [[b' [E ->]]|[a' [-> E]]].
    + left. apply (@emits_footer_flag f raw recs g r He); [|exact Hk].
      rewrite E. apply in_elt.
    + destruct (IH _ _ E Hk) as [Hg|[h [Hh Hkh]]].
      * rewrite (emits_flag He) in Hg. apply orb_true_iff in Hg.
        destruct Hg as [Hf|Hh]; [left; exact Hf|]. right.
        destruct (emits_hr_line He Hh) as [-> _].
        exists (Paragraph_default "hr" []).
        split; [left; reflexivity|reflexivity].
      * right. exists h. split; [apply in_or_app; right; exact Hh | exact Hkh].
Qed.

(** X7. The latch, read on the output alone: no record of kind bullet
    comes after a record of kind hr, and every record of kind footer
    has a record of kind hr somewhere before it. *)
Theorem latch_in_output (md : str) :
  exists out,
    parse_markdown md = Ok out /\
    forall a r b, out = a ++ r :: b ->
      (kind r = "hr"%string ->
         Forall (fun x => kind x <> "bullet"%string) b) /\
      (kind r = "footer"%string ->
         exists h, In h a /\ kind h = "hr"%string).
Proof.
  destruct (parse_markdown_runs md) as [lines [rs [f' [_ [Hr Hp]]]]].
  exists (concat rs). split; [exact Hp|]. intros a r b E. split; intros Hk.
  - apply (@runs_after_hr _ _ _ _ a r b Hr E Hk).
  - destruct (@runs_footer_after_hr _ _ _ _ a r b Hr E Hk) as [F|F];
      [discriminate F | exact F].
Qed.

(** ** The requests of the batch *)

Lemma sequential_app b xs ys :
  sequential b (xs ++ ys) <->
  sequential b xs /\ sequential (b + list_sum (map inserted xs)) ys.
Proof.
  revert b; induction xs as [|x xs IH]; intros b; simpl.
  - rewrite Nat.add_0_r. tauto.
  - rewrite IH, Nat.add_assoc. tauto.
Qed.

Lemma layout_fold_inv (P : layout -> Prop) ps st :
  P st -> (forall st p, P st -> P (layout_step st p)) ->
  P (fold_left layout_step ps st).
Proof.
  intros H0 Hs. revert st H0; induction ps as [|p ps IH]; intros st H0;
    simpl; [exact H0 | apply IH, Hs, H0].
Qed.

Lemma layout_snoc ps p :
  layout_paragraphs (ps ++ [p]) = layout_step (layout_paragraphs ps) p.
Proof. unfold layout_paragraphs. rewrite fold_left_app. reflexivity. Qed.

(** What one paragraph adds to the state. *)
Lemma layout_step_hr st p :
  not_hr p = false ->
  layout_step st p =
  mkLayout (idx st + 3)
    (requests st ++ [insertText (idx st) [LF];
                     insertHorizontalRule (idx st + 1);
                     insertText (idx st + 2) [LF]])
    (para_ranges st) (mention_ranges st) (footer_ranges st).
Proof.
  unfold not_hr, layout_step, add_text. intros H.
  apply negb_false_iff in H. rewrite H. cbn [snd idx requests para_ranges
    mention_ranges footer_ranges length app].
  rewrite <- !app_assoc. cbn [app]. f_equal; [lia|].
  do 3 f_equal; [f_equal; lia | do 2 f_equal; lia].
Qed.

Lemma layout_step_text st p :
  not_hr p = true ->
  layout_step st p =
  mkLayout (idx st + length (text p) + 1)
    (requests st ++ [insertText (idx st) (text p ++ [LF])])
    (para_ranges st
     ++ [mkRange (kind p) (level p) (idx st) (idx st + length (text p) + 1)])
    (mention_ranges st
     ++ map (fun m => (idx st + fst m, idx st + snd m)) (mentions p))
    (if String.eqb (kind p) "footer"
     then footer_ranges st ++ [(idx st, idx st + length (text p))]
     else footer_ranges st).
Proof.
  unfold not_hr, layout_step, add_text. intros H.
  apply negb_true_iff in H. rewrite H. cbn [fst snd idx requests para_ranges
    mention_ranges footer_ranges].
  f_equal. destruct (String.eqb (kind p) "footer"); [|reflexivity].
  do 3 f_equal. lia.
Qed.

Lemma layout_step_sequential st p :
  sequential 1 (requests st) /\
  idx st = 1 + list_sum (map inserted (requests st)) ->
  sequential 1 (requests (layout_step st p)) /\
  idx (layout_step st p) = 1 + list_sum (map inserted (requests (layout_step st p))).
Proof.
  intros [Hs Hi]. destruct (not_hr p) eqn:E.
  - rewrite (@layout_step_text st p E). cbn [requests idx]. split.
    + apply sequential_app. split; [exact Hs|]. rewrite <- Hi. simpl. auto.
    + rewrite map_app, list_sum_app. simpl. rewrite length_app. simpl. lia.
  - rewrite (@layout_step_hr st p E). cbn [requests idx]. split.
    + apply sequential_app. split; [exact Hs|]. rewrite <- Hi. simpl.
      repeat split; f_equal; lia.
    + rewrite map_app, list_sum_app. simpl. lia.
Qed.

Lemma layout_idx_closed ps st :
  idx (fold_left layout_step ps st) =
  idx st
  + list_sum (map (fun p => if not_hr p then length (text p) + 1 else 3) ps).
Proof.
  revert st; induction ps as [|p ps IH]; intros st; simpl; [lia|].
  rewrite IH. destruct (not_hr p) eqn:E.
  - rewrite (@layout_step_text st p E). cbn [idx]. lia.
  - rewrite (@layout_step_hr st p E). cbn [idx]. lia.
Qed.

(** X8. The insert requests build the body from front to back: the
    first inserts at index 1 and each one at the index where the text
    inserted before it ends, a paragraph adding its text and a line
    feed and a rule adding a line feed, the rule and a line feed; [idx]
    ends one past the inserted text, which is one more than the sum
    over the paragraphs of the length of the text plus one, a rule
    counting three. *)
Theorem inserts_sequential (paragraphs : list Paragraph) :
  let st := layout_paragraphs paragraphs in
  sequential 1 (requests st) /\
  idx st = 1 + list_sum (map inserted (requests st)) /\
  idx st =
  1 + list_sum (map (fun p => if not_hr p then length (text p) + 1 else 3)
                  paragraphs).
Proof.
  cbv zeta.
  assert (H : sequential 1 (requests (layout_paragraphs paragraphs)) /\
              idx (layout_paragraphs paragraphs) =
              1 + list_sum (map inserted (requests (layout_paragraphs paragraphs)))).
  { unfold layout_paragraphs. apply layout_fold_inv.
    - simpl. auto.
    - intros st p. apply layout_step_sequential. }
  destruct H as [H1 H2]. repeat split; [exact H1 | exact H2 |].
  unfold layout_paragraphs. rewrite layout_idx_closed. reflexivity.
Qed.

Lemma Forall2_snoc A B (R : A -> B -> Prop) xs ys x y :
  Forall2 R xs ys -> R x y -> Forall2 R (xs ++ [x]) (ys ++ [y]).
Proof.
  induction 1; intros Hxy; simpl; constructor; auto.
Qed.

Lemma ordered_from_snoc lo l a b :
  ordered_from lo l -> (forall x, In x l -> snd x <= a) ->
  lo <= a -> a < b -> ordered_from lo (l ++ [(a, b)]).
Proof.
  revert lo; induction l as [|[x y] l IH]; intros lo; simpl.
  - auto.
  - intros [H1 [H2 H3]] Hle _ Hab. split; [exact H1|]. split; [exact H2|].
    apply IH; auto. apply (Hle (x, y)). left; reflexivity.
Qed.

(** X9. [para_ranges] has one entry for each paragraph that is not a
    rule, in the order of the paragraphs, with the kind and the level
    of the paragraph and a range as long as its text and one line feed;
    the ranges start at index 1 or later, follow one another without
    overlap and end within the inserted text. *)
Theorem para_ranges_layout (paragraphs : list Paragraph) :
  let st := layout_paragraphs paragraphs in
  Forall2 range_of (para_ranges st) (filter not_hr paragraphs) /\
  ordered_from 1 (map (fun pr => (pr_start pr, pr_end pr)) (para_ranges st)) /\
  Forall (fun pr => pr_end pr <= idx st) (para_ranges st) /\
  1 <= idx st.
Proof.
  cbv zeta. induction paragraphs as [|p ps IH] using rev_ind.
  - simpl. repeat split; constructor.
  - destruct IH as [H1 [H2 [H3 H4]]]. rewrite layout_snoc, filter_app.
    destruct (not_hr p) eqn:E.
    + rewrite (@layout_step_text _ p E). cbn [para_ranges idx filter].
      rewrite E. repeat split.
      * apply Forall2_snoc; [exact H1|]. repeat split.
      * rewrite map_app. cbn [map pr_start pr_end].
        apply ordered_from_snoc; [exact H2 | | exact H4 | lia].
        intros x Hx. apply in_map_iff in Hx. destruct Hx as [pr [<- Hpr]].
        rewrite Forall_forall in H3. apply (H3 pr Hpr).
      * apply Forall_app. split.
        -- eapply Forall_impl; [|exact H3]. cbv beta. intros; lia.
        -- constructor; [cbn [pr_end]; lia | constructor].
      * lia.
    + rewrite (@layout_step_hr _ p E). cbn [para_ranges idx filter].
      rewrite E, app_nil_r. repeat split; auto; try lia.
      eapply Forall_impl; [|exact H3]. cbv beta. intros; lia.
Qed.

Lemma layout_idx_pos ps : 1 <= idx (layout_paragraphs ps).
Proof.
  unfold layout_paragraphs. rewrite layout_idx_closed. cbn [idx]. lia.
Qed.

(** Where the mention and footer ranges come from. *)
Lemma layout_links (ps : list Paragraph) :
  let st := layout_paragraphs ps in
  (forall pr, In pr (para_ranges st) ->
     exists p, In p ps /\ range_of pr p /\
               1 <= pr_start pr /\ pr_end pr <= idx st) /\
  (forall s e, In (s, e) (mention_ranges st) ->
     exists pr p a b,
       In pr (para_ranges st) /\ In p ps /\ range_of pr p /\
       In (a, b) (mentions p) /\
       s = pr_start pr + a /\ e = pr_start pr + b) /\
  (forall s e, In (s, e) (footer_ranges st) ->
     exists pr p,
       In pr (para_ranges st) /\ In p ps /\ range_of pr p /\
       kind p = "footer"%string /\
       s = pr_start pr /\ e = pr_start pr + length (text p)).
Proof.
  cbv zeta. induction ps as [|p ps IH] using rev_ind.
  - simpl. split; [|split]; intros; contradiction.
  - destruct IH as [H1 [H2 H3]].
    pose proof (layout_idx_pos ps) as Hi.
    assert (K1 : forall pr,
               In pr (para_ranges (layout_paragraphs ps)) ->
               exists q, In q (ps ++ [p]) /\ range_of pr q /\
                         1 <= pr_start pr /\
                         pr_end pr <= idx (layout_paragraphs ps)).
    { intros pr Hpr. destruct (H1 pr Hpr) as [q [Hq [Hr [Hs He]]]].
      exists q. split; [apply in_or_app; left; exact Hq|]. auto. }
    assert (K2 : forall s e,
               In (s, e) (mention_ranges (layout_paragraphs ps)) ->
               exists pr q a b,
                 In pr (para_ranges (layout_paragraphs ps)) /\
                 In q (ps ++ [p]) /\ range_of pr q /\
                 In (a, b) (mentions q) /\
                 s = pr_start pr + a /\ e = pr_start pr + b).
    { intros s e Hin.
      destruct (H2 s e Hin) as [pr [q [a [b [Hpr [Hq [Hr [Hm [Es Ee]]]]]]]]].
      exists pr, q, a, b. split; [exact Hpr|].
      split; [apply in_or_app; left; exact Hq|]. auto. }
    assert (K3 : forall s e,
               In (s, e) (footer_ranges (layout_paragraphs ps)) ->
               exists pr q,
                 In pr (para_ranges (layout_paragraphs ps)) /\
                 In q (ps ++ [p]) /\ range_of pr q /\
                 kind q = "footer"%string /\
                 s = pr_start pr /\ e = pr_start pr + length (text q)).
    { intros s e Hin.
      destruct (H3 s e Hin) as [pr [q [Hpr [Hq [Hr [Hk [Es Ee]]]]]]].
      exists pr, q. split; [exact Hpr|].
      split; [apply in_or_app; left; exact Hq|]. auto. }
    assert (Hp : In p (ps ++ [p])) by (apply in_or_app; right; left; reflexivity).
    rewrite layout_snoc. destruct (not_hr p) eqn:E.
    + rewrite (@layout_step_text _ p E).
      cbn [para_ranges idx mention_ranges footer_ranges].
      set (st := layout_paragraphs ps) in *.
      set (pr0 := mkRange (kind p) (level p) (idx st)
                    (idx st + length (text p) + 1)).
      assert (R0 : range_of pr0 p).
      { unfold range_of, pr0. cbn [pr_kind pr_level pr_start pr_end]. auto. }
      assert (I0 : In pr0 (para_ranges st ++ [pr0]))
        by (apply in_or_app; right; left; reflexivity).
      split; [|split].
      * intros pr Hpr. apply in_app_iff in Hpr. destruct Hpr as [Hpr|[<-|[]]].
        -- destruct (K1 pr Hpr) as [q [Hq [Hr [Hs He]]]].
           exists q. split; [exact Hq|]. split; [exact Hr|]. split; lia.
        -- exists p. split; [exact Hp|]. split; [exact R0|].
           unfold pr0; cbn [pr_start pr_end]. split; lia.
      * intros s e Hin. apply in_app_iff in Hin. destruct Hin as [Hin|Hin].
        -- destruct (K2 s e Hin) as [pr [q [a [b [Hpr [Hq Hrest]]]]]].
           exists pr, q, a, b. split; [apply in_or_app; left; exact Hpr|]. auto.
        -- apply in_map_iff in Hin. destruct Hin as [[a b] [Hab Hm]].
           cbn [fst snd] in Hab. injection Hab as <- <-.
           exists pr0, p, a, b. unfold pr0 at 3 4. cbn [pr_start]. auto 7.
      * intros s e Hin.
        assert (Hold : In (s, e) (footer_ranges st) ->
                       exists pr q,
                         In pr (para_ranges st ++ [pr0]) /\
                         In q (ps ++ [p]) /\ range_of pr q /\
                         kind q = "footer"%string /\
                         s = pr_start pr /\ e = pr_start pr + length (text q)).
        { intros Hin'. destruct (K3 s e Hin') as [pr [q [Hpr Hrest]]].
          exists pr, q. split; [apply in_or_app; left; exact Hpr|]. auto. }
        destruct (String.eqb (kind p) "footer") eqn:Ek; [|exact (Hold Hin)].
        apply in_app_iff in Hin. destruct Hin as [Hin|[Hin|[]]]; [exact (Hold Hin)|].
        injection Hin as <- <-. apply String.eqb_eq in Ek.
        exists pr0, p. unfold pr0 at 3 4. cbn [pr_start]. auto 7.
    + rewrite (@layout_step_hr _ p E).
      cbn [para_ranges idx mention_ranges footer_ranges].
      split; [|split; [exact K2 | exact K3]].
      intros pr Hpr. destruct (K1 pr Hpr) as [q [Hq [Hr [Hs He]]]].
      exists q. split; [exact Hq|]. split; [exact Hr|]. split; lia.
Qed.

(** ** The parser and the requests together *)

Lemma emits_tokens f raw recs f' r a b :
  emits f raw recs f' -> In r recs -> In (a, b) (mentions r) ->
  token_at (text r) a b.
Proof.
  intros H Hin.
  emits_cases H; simpl in Hin;
    repeat (destruct Hin as [<-|Hin]; [|try contradiction]);
    cbn [text mentions Paragraph_default]; try (intros []; fail);
    intros Hm; apply (proj2 (mention_spans_seq _)); exact Hm.
Qed.

Lemma emits_footer_text f raw recs f' r :
  emits f raw recs f' -> In r recs -> kind r = "footer"%string ->
  text r <> [].
Proof.
  intros H Hin Hk E.
  pose proof (emits_nonempty H) as F. rewrite Forall_forall in F.
  destruct (F r Hin E) as [-> | ->]; discriminate Hk.
Qed.

(** What the requests use of the output of the parser. *)
Lemma parse_markdown_records md :
  exists out,
    parse_markdown md = Ok out /\
    forall p, In p out ->
      (forall a b, In (a, b) (mentions p) -> token_at (text p) a b) /\
      (kind p = "footer"%string -> text p <> []).
Proof.
  destruct (parse_markdown_runs md) as [lines [rs [f' [_ [Hr Hp]]]]].
  exists (concat rs). split; [exact Hp|]. intros p Hin.
  destruct (@runs_In _ _ _ _ p Hr Hin) as [raw [g [recs [g' [_ [He Hi]]]]]].
  split.
  - intros a b. apply (@emits_tokens _ _ _ _ p a b He Hi).
  - apply (@emits_footer_text _ _ _ _ p He Hi).
Qed.


Lemma requests_are_inserts ps :
  Forall (fun r => style_range r = None) (requests (layout_paragraphs ps)).
Proof.
  unfold layout_paragraphs. apply layout_fold_inv; [constructor|].
  intros st p H. destruct (not_hr p) eqn:E.
  - rewrite (@layout_step_text st p E). cbn [requests].
    apply Forall_app. split; [exact H|]. repeat constructor.
  - rewrite (@layout_step_hr st p E). cbn [requests].
    apply Forall_app. split; [exact H|]. repeat constructor.
Qed.

(** The range of a paragraph style request is the range of an entry of
    [para_ranges]. *)
Lemma paragraph_style_range st r s e :
  In r (flat_map heading_requests (para_ranges st)
        ++ flat_map list_requests (para_ranges st)) ->
  style_range r = Some (s, e) ->
  exists pr, In pr (para_ranges st) /\ s = pr_start pr /\ e = pr_end pr.
Proof.
  intros Hin Hs. apply in_app_iff in Hin.
  destruct Hin as [Hin|Hin]; apply in_flat_map in Hin;
    destruct Hin as [pr [Hpr Hin]]; exists pr; (split; [exact Hpr|]).
  - unfold heading_requests, paragraph_named_style in Hin.
    destruct (String.eqb (pr_kind pr) "h1");
      [|destruct (String.eqb (pr_kind pr) "h2");
        [|destruct (String.eqb (pr_kind pr) "h3")]];
      simpl in Hin; try contradiction;
      destruct Hin as [<-|[]]; simpl in Hs; injection Hs as <- <-; auto.
  - unfold list_requests, set_indent in Hin.
    destruct (String.eqb (pr_kind pr) "bullet");
      [|destruct (String.eqb (pr_kind pr) "checkbox")];
      simpl in Hin; try contradiction;
      destruct Hin as [<-|[<-|[]]]; simpl in Hs; injection Hs as <- <-; auto.
Qed.

(** X11. For the paragraphs [parse_markdown] returns, every style
    request of the batch applies to a range that is not empty and lies
    within the inserted text: it starts at index 1 or later, ends after
    it starts, and ends no later than the final [idx]. *)
Theorem style_ranges_of_parse (md : str) :
  exists out,
    parse_markdown md = Ok out /\
    forall r s e,
      In r (batch_requests out) -> style_range r = Some (s, e) ->
      1 <= s /\ s < e /\ e <= idx (layout_paragraphs out).
Proof.
  destruct (parse_markdown_records md) as [out [Hp Hf]].
  exists out. split; [exact Hp|]. intros r s e Hin Hs.
  destruct (layout_links out) as [H1 [H2 H3]]. cbv zeta in H1, H2, H3.
  unfold batch_requests in Hin. cbv zeta in Hin.
  apply in_app_iff in Hin. destruct Hin as [Hin|Hin].
  { pose proof (requests_are_inserts out) as F. rewrite Forall_forall in F.
    rewrite (F r Hin) in Hs. discriminate. }
  unfold style_reqs in Hin. rewrite app_assoc in Hin.
  apply in_app_iff in Hin. destruct Hin as [Hin|Hin].
  { destruct (paragraph_style_range _ _ Hin Hs) as [pr [Hpr [-> ->]]].
    destruct (H1 pr Hpr) as [p [_ [[_ [_ Re]] [Hs1 He1]]]]. lia. }
  apply in_app_iff in Hin. destruct Hin as [Hin|Hin];
    apply in_map_iff in Hin; destruct Hin as [[s' e'] [Hr Hin]];
    subst r; simpl in Hs; injection Hs as -> ->.
  - destruct (H2 s e Hin) as [pr [p [a [b [Hpr [Hq [[_ [_ Re]] [Hm [-> ->]]]]]]]]].
    destruct (Hf p Hq) as [Ht _]. specialize (Ht a b Hm).
    pose proof (token_at_lt Ht) as L. destruct Ht as [Hb _].
    destruct (H1 pr Hpr) as [_ [_ [_ [Hs1 He1]]]]. lia.
  - destruct (H3 s e Hin) as [pr [p [Hpr [Hq [[_ [_ Re]] [Hk [-> ->]]]]]]].
    destruct (Hf p Hq) as [_ Hne]. specialize (Hne Hk).
    destruct (H1 pr Hpr) as [_ [_ [_ [Hs1 He1]]]].
    destruct (text p); [contradiction|]. simpl in *. lia.
Qed.

Lemma layout_fold_extends qs st :
  exists a b c d,
    requests (fold_left layout_step qs st) = requests st ++ a /\
    para_ranges (fold_left layout_step qs st) = para_ranges st ++ b /\
    mention_ranges (fold_left layout_step qs st) = mention_ranges st ++ c /\
    footer_ranges (fold_left layout_step qs st) = footer_ranges st ++ d.
Proof.
  revert st; induction qs as [|q qs IH]; intros st.
  - exists [], [], [], []. simpl. rewrite !app_nil_r. auto.
  - simpl. destruct (IH (layout_step st q)) as [a [b [c [d [Ha [Hb [Hc Hd]]]]]]].
    rewrite Ha, Hb, Hc, Hd. destruct (not_hr q) eqn:E.
    + rewrite (@layout_step_text st q E).
      cbn [requests para_ranges mention_ranges footer_ranges].
      destruct (String.eqb (kind q) "footer");
        rewrite <- !app_assoc; eexists _, _, _, _; repeat split.
    + rewrite (@layout_step_hr st q E).
      cbn [requests para_ranges mention_ranges footer_ranges].
      rewrite <- !app_assoc. eexists _, _, _, _; repeat split.
Qed.

(** X12. Paragraphs added at the end change nothing of what was laid
    out for the paragraphs before them: the insert requests and the
    paragraph, mention and footer ranges of a list of paragraphs are a
    prefix of those of any longer list that starts with it. *)
Theorem layout_prefix (ps qs : list Paragraph) :
  exists a b c d,
    requests (layout_paragraphs (ps ++ qs))
    = requests (layout_paragraphs ps) ++ a /\
    para_ranges (layout_paragraphs (ps ++ qs))
    = para_ranges (layout_paragraphs ps) ++ b /\
    mention_ranges (layout_paragraphs (ps ++ qs))
    = mention_ranges (layout_paragraphs ps) ++ c /\
    footer_ranges (layout_paragraphs (ps ++ qs))
    = footer_ranges (layout_paragraphs ps) ++ d.
Proof.
  unfold layout_paragraphs. rewrite fold_left_app. apply layout_fold_extends.
Qed.

End Parser.

(** ** Concrete inputs

    The texts below are ASCII, so the parser never looks at the part of
    the Unicode database it takes as a parameter; [ascii_only] is a
    database with no alphanumeric character outside ASCII. *)

Definition ascii_only : codepoint -> bool := fun _ => false.

Lemma checkbox_ignores_footer_mode_witness :
  let lines := [py "---"; py "- [ ] call @bob"] in
  let raw := py "- [ ] call @bob" in
  in_footer_at ascii_only lines 1 = Ok true /\
  exists r,
    kind r = "checkbox"%string /\
    records_at ascii_only lines 1 = Ok [r] /\
    in_footer_at ascii_only lines 2 = in_footer_at ascii_only lines 1 /\
    forall out f, loop_body ascii_only raw (out, f) = Ok (out ++ [r], f).
Proof.
  split; [reflexivity|].
  apply (@checkbox_ignores_footer_mode ascii_only
           (text_of_lines ["---"; "- [ ] call @bob"]%string)
           [py "---"; py "- [ ] call @bob"] 1 (py "- [ ] call @bob"));
    reflexivity.
Defined.

Lemma footer_latch_witness :
  let lines := [py "intro"; py "---"; py "* thanks @carol"; py "---"] in
  (forall j raw,
      1 < j -> nth_error lines j = Some raw ->
      is_blank_line raw = false -> is_hr_line raw = false ->
      is_heading_line raw = false ->
      is_checkbox_line raw = false ->
      exists r, records_at ascii_only lines j = Ok [r] /\
                kind r = "footer"%string) /\
  ((forall k l', k < 1 -> nth_error lines k = Some l' -> strip l' <> py "---") ->
   forall j raw,
      j < 1 -> nth_error lines j = Some raw ->
      exists recs, records_at ascii_only lines j = Ok recs /\
                   Forall (fun r => kind r <> "footer"%string) recs) /\
  (forall k, 1 < k -> in_footer_at ascii_only lines k = Ok true) /\
  (forall k l',
      nth_error lines k = Some l' -> strip l' = py "---" ->
      records_at ascii_only lines k = Ok [Paragraph_default "hr" []]).
Proof.
  apply (@footer_latch ascii_only
           (text_of_lines ["intro"; "---"; "* thanks @carol"; "---"]%string)
           [py "intro"; py "---"; py "* thanks @carol"; py "---"] 1 (py "---"));
    reflexivity.
Defined.

Lemma heading_after_rule_witness :
  let lines := [py "---"; py "# Notes - later"; py "bye"] in
  let raw := py "# Notes - later" in
  in_footer_at ascii_only lines 1 = Ok true /\
  (exists recs,
      records_at ascii_only lines 1 = Ok recs /\
      Forall (fun r => kind r <> "footer"%string) recs /\
      (is_h1_line raw = true ->
         exists t, recs = [Paragraph_default "h1" t] \/
                   exists s, recs = [Paragraph_default "h1" t;
                                     Paragraph_default "text" s]) /\
      (is_h2_line raw = true ->
         recs = [Paragraph_default "h2" (strip (skipn 3 (rstrip raw)))]) /\
      (is_h3_line raw = true ->
         recs = [Paragraph_default "h3" (strip (skipn 4 (rstrip raw)))])) /\
  (forall k, 1 < k -> in_footer_at ascii_only lines k = Ok true).
Proof.
  apply (@heading_after_rule ascii_only
           (text_of_lines ["---"; "# Notes - later"; "bye"]%string)
           [py "---"; py "# Notes - later"; py "bye"] 0 1
           (py "---") (py "# Notes - later"));
    try reflexivity. apply Nat.lt_0_1.
Defined.

(** Against C2 as stated: with two rules, the line between them is
    before the second rule and is a footer line; and the second rule,
    a line after the first that is not blank, not a heading and not a
    checkbox line, is emitted as hr and not as footer. *)
Lemma footer_latch_counterexample :
  let lines := [py "---"; py "x"; py "---"] in
  split_lines (text_of_lines ["---"; "x"; "---"]%string) = Ok lines /\
  nth_error lines 2 = Some (py "---") /\ strip (py "---") = py "---" /\
  records_at ascii_only lines 1 = Ok [mkParagraph "footer" (py "x") 0 []] /\
  nth_error lines 0 = Some (py "---") /\
  is_blank_line (py "---") = false /\ is_heading_line (py "---") = false /\
  is_checkbox_line (py "---") = false /\
  records_at ascii_only lines 2 = Ok [mkParagraph "hr" [] 0 []].
Proof. vm_compute. repeat split. Qed.

(** Against C4 as stated: a dash immediately followed by the box, with
    no space between them, is classified as checkbox. *)
Lemma checkbox_boundary_counterexample :
  is_checkbox_line (py "-[ ] buy milk") = true /\
  parse_markdown ascii_only (py "-[ ] buy milk")
  = Ok [mkParagraph "checkbox" (py "buy milk") 0 []].
Proof. vm_compute. split; reflexivity. Qed.

(** Against C6 as stated: the subtitle of an h1 line is a record of kind
    text whose text has a mention token, and its mentions are empty. *)
Lemma mentions_of_records_counterexample :
  parse_markdown ascii_only (py "# A - ping @bob")
  = Ok [mkParagraph "h1" (py "A") 0 [];
        mkParagraph "text" (py "ping @bob") 0 []] /\
  _mention_spans ascii_only (py "ping @bob") = [(5, 9)].
Proof. vm_compute. split; reflexivity. Qed.

Lemma line_endings_agree_witness :
  let lines := [py "# Notes"; []; py "- [ ] call @bob"] in
  split_lines (join [LF] lines) = Ok lines /\
  split_lines (join [CR; LF] lines) = Ok lines /\
  split_lines (join [CR] lines) = Ok lines /\
  parse_markdown ascii_only (join [CR; LF] lines)
  = parse_markdown ascii_only (join [LF] lines) /\
  parse_markdown ascii_only (join [CR] lines)
  = parse_markdown ascii_only (join [LF] lines).
Proof.
  apply (@line_endings_agree ascii_only
           [py "# Notes"; []; py "- [ ] call @bob"]).
  - discriminate.
  - intros l [<-|[<-|[<-|[]]]]; split; simpl; intuition discriminate.
Defined.
